(** * Catalog enrichment route ([src/app/api/enrich/route.ts])

    A shallow embedding of the [POST] handler of the enrichment API and of
    the helper functions it calls, followed by the properties of the
    enrichment engine that the specification states.

    The handler works on ECMAScript strings, plain objects used as
    string-keyed tables, regular expressions and IEEE 754 doubles.  The
    first three modules model the part of the language runtime that the
    route relies on; module [Route] is the translation of the source file
    itself. *)

From Stdlib Require Import ZArith NArith Ascii String SpecFloat.
From Stdlib Require DecimalN.
From stdpp Require Import base option list gmap.

Local Open Scope N_scope.

(** ** ECMAScript strings *)

Module JsString.

(** A string is a sequence of UTF-16 code units. *)
Abbreviation char := N.
Abbreviation jsstring := (list N).

(** Code units of one code point (surrogate pair above the BMP). *)
Definition codeUnits (cp : N) : jsstring :=
  if cp <? 65536 then [cp]
  else [55296 + (cp - 65536) / 1024; 56320 + (cp - 65536) mod 1024].

(** String literals of the source are written as Rocq strings, which hold
    the UTF-8 bytes of the literal; [lit] decodes them to code units. *)
Fixpoint lit (s : string) : jsstring :=
  match s with
  | EmptyString => []
  | String a s1 =>
      let b := N_of_ascii a in
      if b <? 128 then b :: lit s1
      else
        match s1 with
        | EmptyString => [b]
        | String a1 s2 =>
            let b1 := N_of_ascii a1 - 128 in
            if b <? 224 then codeUnits ((b - 192) * 64 + b1) ++ lit s2
            else
              match s2 with
              | EmptyString => [b]
              | String a2 s3 =>
                  let b2 := N_of_ascii a2 - 128 in
                  if b <? 240
                  then codeUnits ((b - 224) * 4096 + b1 * 64 + b2) ++ lit s3
                  else
                    match s3 with
                    | EmptyString => [b]
                    | String a3 s4 =>
                        let b3 := N_of_ascii a3 - 128 in
                        codeUnits ((b - 240) * 262144 + b1 * 4096
                                   + b2 * 64 + b3) ++ lit s4
                    end
              end
        end
  end.

#[global] Arguments lit : simpl never.

(** [WhiteSpace] and [LineTerminator] code points: what [\s] matches and
    what [String.prototype.trim] strips. *)
Definition isWhiteSpace (c : char) : bool :=
  (9 <=? c) && (c <=? 13) || (c =? 32) || (c =? 160) || (c =? 5760)
  || (8192 <=? c) && (c <=? 8202) || (c =? 8232) || (c =? 8233)
  || (c =? 8239) || (c =? 8287) || (c =? 12288) || (c =? 65279).

(** [\d] *)
Definition isDigit (c : char) : bool := (48 <=? c) && (c <=? 57).

Definition isUpper (c : char) : bool := (65 <=? c) && (c <=? 90).
Definition isLower (c : char) : bool := (97 <=? c) && (c <=? 122).

(** [\w] *)
Definition isWordChar (c : char) : bool :=
  isUpper c || isLower c || isDigit c || (c =? 95).

(** A string is truthy when it is not empty. *)
Definition nonEmpty (s : jsstring) : bool :=
  match s with [] => false | _ => true end.

Fixpoint dropWhile (p : char → bool) (s : jsstring) : jsstring :=
  match s with
  | [] => []
  | c :: s1 => if p c then dropWhile p s1 else s
  end.

(** [s.trim()] *)
Definition trimStart (s : jsstring) : jsstring := dropWhile isWhiteSpace s.
Definition trimEnd (s : jsstring) : jsstring :=
  reverse (trimStart (reverse s)).
Definition trim (s : jsstring) : jsstring := trimEnd (trimStart s).

(** [s.split(sep)] for a separator of one code unit. *)
Fixpoint splitChar (sep : char) (cur s : jsstring) : list jsstring :=
  match s with
  | [] => [cur]
  | c :: s1 =>
      if c =? sep then cur :: splitChar sep [] s1
      else splitChar sep (cur ++ [c]) s1
  end.
Definition split (sep : char) (s : jsstring) : list jsstring :=
  splitChar sep [] s.

(** [s.split(/\s+/)]: the separators are the maximal runs of white space;
    a run at either end of the string leaves an empty piece there.
    [inRun] tells that the previous code unit was white space. *)
Fixpoint splitRuns (inRun : bool) (cur s : jsstring) : list jsstring :=
  match s with
  | [] => [cur]
  | c :: s1 =>
      if isWhiteSpace c
      then if inRun then splitRuns true cur s1
           else cur :: splitRuns true [] s1
      else splitRuns false (cur ++ [c]) s1
  end.
Definition splitWhiteSpace (s : jsstring) : list jsstring :=
  splitRuns false [] s.

(** [s.replace(/\s+/g, ' ')] *)
Fixpoint collapseRuns (inRun : bool) (s : jsstring) : jsstring :=
  match s with
  | [] => []
  | c :: s1 =>
      if isWhiteSpace c
      then if inRun then collapseRuns true s1
           else 32 :: collapseRuns true s1
      else c :: collapseRuns false s1
  end.
Definition collapseWhiteSpace (s : jsstring) : jsstring :=
  collapseRuns false s.

(** [parts.join(sep)] *)
Fixpoint join (sep : jsstring) (parts : list jsstring) : jsstring :=
  match parts with
  | [] => []
  | [p] => p
  | p :: ps => p ++ sep ++ join sep ps
  end.

(** [s.slice(0, n)] *)
Definition slice0 (n : nat) (s : jsstring) : jsstring := take n s.

(** [s.replace(c, '')] with a string pattern of one code unit: only the
    first occurrence is replaced. *)
Fixpoint removeFirst (c : char) (s : jsstring) : jsstring :=
  match s with
  | [] => []
  | d :: s1 => if d =? c then s1 else d :: removeFirst c s1
  end.

Fixpoint startsWith (p s : jsstring) : bool :=
  match p, s with
  | [], _ => true
  | _ :: _, [] => false
  | a :: p1, b :: s1 => (a =? b) && startsWith p1 s1
  end.

(** [s.includes(p)] *)
Fixpoint includes (p s : jsstring) : bool :=
  startsWith p s
  || match s with
     | [] => false
     | _ :: s1 => includes p s1
     end.

(** [s.toLowerCase()].  The mapping is the Unicode one on Basic Latin,
    together with the two code points outside it whose lower case
    contains a Basic Latin letter (U+0130 and the Kelvin sign U+212A);
    every other code unit is kept, so that searching the result for a
    Basic Latin word gives the answer of the runtime. *)
Definition lowerChar (c : char) : jsstring :=
  if isUpper c then [c + 32]
  else if c =? 304 then [105; 775]
  else if c =? 8490 then [107]
  else [c].
Definition toLowerCase (s : jsstring) : jsstring :=
  concat (map lowerChar s).

(** [s.toUpperCase()], on the Basic Latin strings the route applies it
    to (the text matched by the size pattern). *)
Definition upperChar (c : char) : char := if isLower c then c - 32 else c.
Definition toUpperCase (s : jsstring) : jsstring := map upperChar s.

End JsString.

(** ** Regular expressions *)

Module JsRegExp.
Import JsString.

(** The fragment of the pattern language that the route uses.  [Chr p]
    matches one code unit satisfying [p]; [Star] is the greedy [*];
    [Group] is the capturing group number 1 (no pattern of the route has
    a second one); [WordBoundary] is [\b]. *)
Inductive regex : Type :=
| Eps
| Chr (p : char → bool)
| Seq (r1 r2 : regex)
| Alt (r1 r2 : regex)
| Star (r : regex)
| Group (r : regex)
| WordBoundary.

(** [r?] and [r+], both greedy. *)
Definition Opt (r : regex) : regex := Alt r Eps.
Definition Plus (r : regex) : regex := Seq r (Star r).

(** The code unit [c], and a literal word. *)
Definition Lit (c : char) : regex := Chr (N.eqb c).
Fixpoint Word (mk : char → regex) (w : jsstring) : regex :=
  match w with
  | [] => Eps
  | c :: w1 => Seq (mk c) (Word mk w1)
  end.

(** With the [i] flag two code units match when they canonicalize to the
    same one.  A pattern letter of Basic Latin then matches its two
    cases and nothing else. *)
Definition LitI (c : char) : regex :=
  Chr (fun d => (upperChar d =? upperChar c) && (d <? 128)).

(** [r1|r2|...|rn] *)
Fixpoint Alts (rs : list regex) : regex :=
  match rs with
  | [] => Eps
  | [r] => r
  | r :: rs1 => Alt r (Alts rs1)
  end.

(** The matcher state: the code unit before the current position, the
    input from the current position on, and the text captured by group 1
    so far. *)
Record mstate : Type := MState {
  prev : option char;
  rest : jsstring;
  cap1 : option jsstring
}.

Definition isWordAt (c : option char) : bool :=
  match c with Some d => isWordChar d | None => false end.

(** Backtracking matcher in continuation-passing style: [exec r st k]
    tries the ways of matching [r] at [st] in the priority order of the
    language and returns the first one that the continuation [k]
    accepts.  An iteration of [Star] that consumes nothing is rejected,
    so the length of the remaining input bounds the iterations. *)
Fixpoint exec {A} (r : regex) (st : mstate) (k : mstate → option A)
  : option A :=
  match r with
  | Eps => k st
  | Chr p =>
      match rest st with
      | c :: s1 => if p c then k (MState (Some c) s1 (cap1 st)) else None
      | [] => None
      end
  | Seq r1 r2 => exec r1 st (fun st1 => exec r2 st1 k)
  | Alt r1 r2 =>
      match exec r1 st k with
      | Some x => Some x
      | None => exec r2 st k
      end
  | Star r1 =>
      (fix loop (fuel : nat) (st0 : mstate) {struct fuel} : option A :=
         match
           exec r1 st0 (fun st1 =>
             if (length (rest st1) <? length (rest st0))%nat
             then match fuel with
                  | S fuel1 => loop fuel1 st1
                  | O => None
                  end
             else None)
         with
         | Some x => Some x
         | None => k st0
         end) (length (rest st)) st
  | Group r1 =>
      exec r1 st (fun st1 =>
        k (MState (prev st1) (rest st1)
             (Some (take (length (rest st) - length (rest st1)) (rest st)))))
  | WordBoundary =>
      if xorb (isWordAt (prev st)) (isWordAt (head (rest st)))
      then k st else None
  end.

(** The first position, from the left, at which the pattern matches. *)
Fixpoint search (r : regex) (before : option char) (s : jsstring)
  : option mstate :=
  match exec r (MState before s None) Some with
  | Some st => Some st
  | None =>
      match s with
      | [] => None
      | c :: s1 => search r (Some c) s1
      end
  end.

(** [s.match(r)[1]] for a pattern without the [g] flag whose group takes
    part in every match; [None] when [s.match(r)] is [null]. *)
Definition match1 (r : regex) (s : jsstring) : option jsstring :=
  st ← search r None s; cap1 st.

End JsRegExp.

(** ** Numbers *)

Module JsNumber.
Import JsString.

(** A Number is an IEEE 754 binary64 value. *)
Abbreviation number := spec_float.
Definition prec : Z := 53.
Definition emax : Z := 1024.

Definition pow10 (e : Z) : positive :=
  match e with
  | Zpos p => Pos.pow 10 p
  | _ => 1%positive
  end.

(** The Number nearest to [m * 10^e], ties to even: the quotient of two
    integers, which [SFdiv] rounds once. *)
Definition ofDecimal (neg : bool) (m : N) (e : Z) : number :=
  match m with
  | N0 => S754_zero neg
  | Npos p =>
      SFdiv prec emax
        (S754_finite neg (p * pow10 e) 0)
        (S754_finite false (pow10 (- e)) 0)
  end.

(** The Number nearest to a positive integer. *)
Definition ofInteger (v : Z) : number := binary_normalize prec emax v 0 false.

(** [ToBoolean]: NaN, [+0] and [-0] are falsy. *)
Definition truthy (x : number) : bool :=
  match x with
  | S754_nan | S754_zero _ => false
  | _ => true
  end.

Definition mul (x y : number) : number := SFmul prec emax x y.
Definition gt (x y : number) : bool := SFltb y x.

(** *** [parseFloat] *)

Fixpoint takeWhile (p : char → bool) (s : jsstring) : jsstring :=
  match s with
  | [] => []
  | c :: s1 => if p c then c :: takeWhile p s1 else []
  end.

(** Value of a string of decimal digits. *)
Definition digitsValue (s : jsstring) : N :=
  fold_left (fun acc c => 10 * acc + (c - 48)) s 0.

(** [ExponentPart]: [e] or [E], an optional sign and at least one digit;
    0 when the input does not start with one. *)
Definition exponentPart (s : jsstring) : Z :=
  match s with
  | c :: s1 =>
      if (c =? 101) || (c =? 69) then
        match s1 with
        | d :: s2 =>
            if d =? 45 then
              match takeWhile isDigit s2 with
              | [] => 0%Z
              | ds => (- Z.of_N (digitsValue ds))%Z
              end
            else if d =? 43 then Z.of_N (digitsValue (takeWhile isDigit s2))
            else Z.of_N (digitsValue (takeWhile isDigit s1))
        | [] => 0%Z
        end
      else 0%Z
  | [] => 0%Z
  end.

(** The longest prefix that is a [StrUnsignedDecimalLiteral], as its
    value; NaN when no prefix is one. *)
Definition unsignedLiteral (neg : bool) (s : jsstring) : number :=
  if startsWith (lit "Infinity") s then S754_infinity neg
  else
    let ip := takeWhile isDigit s in
    let s1 := dropWhile isDigit s in
    match s1 with
    | 46 :: s2 =>
        let fp := takeWhile isDigit s2 in
        let s3 := dropWhile isDigit s2 in
        match ip ++ fp with
        | [] => S754_nan
        | ds =>
            ofDecimal neg (digitsValue ds)
              (exponentPart s3 - Z.of_nat (length fp))
        end
    | _ =>
        match ip with
        | [] => S754_nan
        | ds => ofDecimal neg (digitsValue ds) (exponentPart s1)
        end
    end.

Definition parseFloat (s : jsstring) : number :=
  match trimStart s with
  | 45 :: s1 => unsignedLiteral true s1
  | 43 :: s1 => unsignedLiteral false s1
  | s1 => unsignedLiteral false s1
  end.

(** *** Printing *)

Fixpoint uintDigits (d : Decimal.uint) : jsstring :=
  match d with
  | Decimal.Nil => []
  | Decimal.D0 d1 => 48 :: uintDigits d1
  | Decimal.D1 d1 => 49 :: uintDigits d1
  | Decimal.D2 d1 => 50 :: uintDigits d1
  | Decimal.D3 d1 => 51 :: uintDigits d1
  | Decimal.D4 d1 => 52 :: uintDigits d1
  | Decimal.D5 d1 => 53 :: uintDigits d1
  | Decimal.D6 d1 => 54 :: uintDigits d1
  | Decimal.D7 d1 => 55 :: uintDigits d1
  | Decimal.D8 d1 => 56 :: uintDigits d1
  | Decimal.D9 d1 => 57 :: uintDigits d1
  end.

(** Decimal digits of a natural number, ["0"] for zero. *)
Definition decimal (n : N) : jsstring := uintDigits (N.to_uint n).

(** The integer [n] for which [n / 10^f - m * 2^e] is as close to zero as
    possible, the larger one when there are two. *)
Definition nearestScaled (f : nat) (m : positive) (e : Z) : N :=
  let v := (Zpos m * Z.pow 10 (Z.of_nat f))%Z in
  Z.to_N
    (match e with
     | Zneg p => (2 * v + Z.pow 2 (Zpos p)) / Z.pow 2 (Zpos p + 1)
     | _ => v * Z.pow 2 e
     end)%Z.

(** The digits of [n] with a point before the last [f] of them, padded
    with zeros on the left up to [f + 1] digits. *)
Definition fixedDigits (f : nat) (n : N) : jsstring :=
  let m := decimal n in
  let m := replicate (S f - length m) 48 ++ m in
  match f with
  | O => m
  | _ => take (length m - f) m ++ 46 :: drop (length m - f) m
  end.

(** [Number::toString] of a finite Number that is at least [10^21], given
    by its integer value [v]: the fewest digits [s] (there are [k] of
    them) such that [s * 10^(n-k)] rounds to the Number, the choice
    closest to [v] when several have [k] digits, then the even one. *)
Definition digitCandidates (v : Z) (k : Z) : list (Z * Z) :=
  let d := Z.of_nat (length (decimal (Z.to_N v))) in
  n ← [d; d + 1]%Z;
  let p := Z.pow 10 (n - k) in
  s ← [v / p; v / p + 1]%Z;
  if ((Z.pow 10 (k - 1) <=? s) && (s <? Z.pow 10 k))%Z
     && SFeqb (ofInteger (s * p)) (ofInteger v)
  then [(n, s)] else [].

Definition closer (v : Z) (k : Z) (a b : Z * Z) : Z * Z :=
  let da := Z.abs (a.2 * Z.pow 10 (a.1 - k) - v) in
  let db := Z.abs (b.2 * Z.pow 10 (b.1 - k) - v) in
  if (da <? db)%Z then a
  else if (db <? da)%Z then b
  else if Z.even a.2 then a else b.

Fixpoint shortestDigits (v : Z) (k : Z) (fuel : nat) : Z * Z * Z :=
  match digitCandidates v k with
  | c :: cs => let '(n, s) := fold_left (closer v k) cs c in (n, k, s)
  | [] =>
      match fuel with
      | S fuel1 => shortestDigits v (k + 1) fuel1
      | O => let d := Z.of_nat (length (decimal (Z.to_N v))) in (d, d, v)
      end
  end.

Definition exponential (v : Z) : jsstring :=
  let '(n, k, s) := shortestDigits v 1 20 in
  let ds := decimal (Z.to_N s) in
  match ds with
  | [d] => d :: lit "e+" ++ decimal (Z.to_N (n - 1))
  | d :: ds1 => d :: 46 :: ds1 ++ lit "e+" ++ decimal (Z.to_N (n - 1))
  | [] => []
  end.

(** [m * 2^e < 10^21] *)
Definition belowLimit (m : positive) (e : Z) : bool :=
  match e with
  | Zneg p => (Zpos m <? Z.pow 10 21 * Z.pow 2 (Zpos p))%Z
  | _ => (Zpos m * Z.pow 2 e <? Z.pow 10 21)%Z
  end.

(** [x.toFixed(f)] for [0 <= f <= 100].  A Number that is at least
    [10^21] is an integer and is printed by [Number::toString]. *)
Definition toFixed (f : nat) (x : number) : jsstring :=
  match x with
  | S754_nan => lit "NaN"
  | S754_infinity neg => (if neg then [45] else []) ++ lit "Infinity"
  | S754_zero _ => fixedDigits f 0
  | S754_finite neg m e =>
      (if neg then [45] else [])
      ++ (if belowLimit m e
          then fixedDigits f (nearestScaled f m e)
          else exponential (Z.shiftl (Zpos m) e))
  end.

End JsNumber.

(** ** The route *)

Module Route.
Import JsString JsRegExp JsNumber.

(** [interface CatalogRow { [key: string]: string }] *)
Abbreviation CatalogRow := (gmap jsstring jsstring).

(** [interface EnrichRequest]; a field that is missing from the request
    body (or is not of the declared type) is [None]. *)
Record EnrichRequest : Type := {
  catalog : option (list CatalogRow);
  rawData : option jsstring
}.

(** [NextResponse.json(body, { status })] *)
Inductive response : Type :=
| Enriched (enrichedCatalog : list CatalogRow)
| Error (status : Z) (error : jsstring).

(** [row[k]] is [undefined] or a string; [undefined] and [''] are
    falsy. *)
Definition falsy (v : option jsstring) : bool :=
  match v with
  | Some (_ :: _) => false
  | _ => true
  end.

(** [v || w] *)
Definition or (v w : option jsstring) : option jsstring :=
  if falsy v then w else v.
Infix "|||" := or (at level 50, left associativity).

(** The value of an expression that ends in [|| 'text']. *)
Definition str (v : option jsstring) : jsstring := default [] v.

(** [if (!enrichedRow[k]) { enrichedRow[k] = v; }] *)
Definition assignIfEmpty (k v : jsstring) (enrichedRow : CatalogRow)
  : CatalogRow :=
  if falsy (enrichedRow !! k) then <[k := v]> enrichedRow else enrichedRow.

Definition generateTitle (rawData : jsstring) (row : CatalogRow)
  : jsstring :=
  let title :=
    str (row !! lit "title" ||| row !! lit "name"
         ||| row !! lit "product_name" ||| Some []) in
  if nonEmpty title then title
  else
    let words := join (lit " ") (take 10 (splitWhiteSpace rawData)) in
    if nonEmpty words then words else lit "Product".

Definition generateDescription (rawData : jsstring) (row : CatalogRow)
  : jsstring :=
  let desc := str (row !! lit "description" ||| row !! lit "desc"
                   ||| Some []) in
  if nonEmpty desc then desc
  else
    let brand := str (row !! lit "brand" ||| Some (lit "Quality")) in
    let category := str (row !! lit "category" ||| Some (lit "product")) in
    let color := str (row !! lit "color" ||| Some []) in
    let material := str (row !! lit "material" ||| Some []) in
    let description := lit "Premium " ++ brand ++ lit " " ++ category in
    let description :=
      if nonEmpty color
      then description ++ lit " in " ++ color ++ lit " color"
      else description in
    let description :=
      if nonEmpty material
      then description ++ lit " made with " ++ material
      else description in
    description ++ lit ". " ++ slice0 200 rawData.

(** [text.trim().replace(/\s+/g, ' ')] *)
Definition tidy (text : jsstring) : jsstring :=
  collapseWhiteSpace (trim text).

Definition generatePlatformTitle (platform : jsstring) (row : CatalogRow)
  (rawData : jsstring) : jsstring :=
  let baseTitle := str (row !! lit "product_title" ||| row !! lit "title"
                        ||| Some (lit "Product")) in
  let brand := str (row !! lit "brand" ||| Some []) in
  let color := str (row !! lit "color" ||| Some []) in
  let size := str (row !! lit "size" ||| Some []) in
  if decide (platform = lit "amazon") then
    tidy (brand ++ lit " " ++ baseTitle ++ lit " " ++ color ++ lit " "
          ++ size)
  else if decide (platform = lit "flipkart") then
    tidy (baseTitle ++ lit " (" ++ brand ++ lit ") - " ++ color)
  else if decide (platform = lit "meesho") then
    tidy (baseTitle ++ lit " " ++ color ++ lit " " ++ size)
  else if decide (platform = lit "myntra") then
    tidy (brand ++ lit " " ++ color ++ lit " " ++ baseTitle)
  else baseTitle.

(** The line feed of the template literals. *)
Definition nl : jsstring := [10].

Definition generatePlatformDescription (platform : jsstring)
  (row : CatalogRow) (rawData : jsstring) : jsstring :=
  let baseDesc := str (row !! lit "description" ||| Some []) in
  let brand := str (row !! lit "brand" ||| Some []) in
  let material := str (row !! lit "material" ||| Some []) in
  if decide (platform = lit "amazon") then
    baseDesc ++ nl ++ nl ++ lit "Key Features:" ++ nl
    ++ lit "• Premium Quality" ++ nl
    ++ lit "• " ++ brand ++ lit " Brand" ++ nl
    ++ lit "• " ++ material ++ lit " Material" ++ nl
    ++ lit "• Fast Delivery Available"
  else if decide (platform = lit "flipkart") then
    baseDesc ++ nl ++ nl ++ lit "Specifications:" ++ nl
    ++ lit "- Brand: " ++ brand ++ nl
    ++ lit "- Material: " ++ material ++ nl
    ++ lit "- Quality Assured"
  else if decide (platform = lit "meesho") then
    baseDesc ++ nl ++ nl ++ lit "✓ Best Price" ++ nl
    ++ lit "✓ Quality Product" ++ nl
    ++ lit "✓ Fast Shipping"
  else if decide (platform = lit "myntra") then
    baseDesc ++ nl ++ nl ++ lit "Product Details:" ++ nl
    ++ lit "• Brand: " ++ brand ++ nl
    ++ lit "• Material: " ++ material ++ nl
    ++ lit "• Style & Comfort Combined"
  else baseDesc.

Definition generateKeywords (platform : jsstring) (row : CatalogRow)
  (rawData : jsstring) : jsstring :=
  let brand := str (row !! lit "brand" ||| Some []) in
  let category := str (row !! lit "category" ||| Some []) in
  let color := str (row !! lit "color" ||| Some []) in
  let material := str (row !! lit "material" ||| Some []) in
  let keywords :=
    List.filter nonEmpty
      [brand; category; color; material; lit "quality"; lit "premium";
       lit "best"; lit "latest"; lit "trending"] in
  join (lit ", ") keywords.

(** [/₹?\s*(\d+(?:,\d+)*(?:\.\d{2})?)/] *)
Definition priceGroup : regex :=
  Seq (Plus (Chr isDigit))
    (Seq (Star (Seq (Lit 44) (Plus (Chr isDigit))))
       (Opt (Seq (Lit 46) (Seq (Chr isDigit) (Chr isDigit))))).
Definition pricePattern : regex :=
  Seq (Opt (Lit 8377)) (Seq (Star (Chr isWhiteSpace)) (Group priceGroup)).

Definition extractPrice (rawData : jsstring) : jsstring :=
  match match1 pricePattern rawData with
  | Some group1 => removeFirst 44 group1
  | None => []
  end.

(** [for (const word of vocabulary)
       if (lowerData.includes(word.toLowerCase())) return word;] *)
Fixpoint firstIncluded (vocabulary : list jsstring) (lowerData : jsstring)
  : option jsstring :=
  match vocabulary with
  | [] => None
  | word :: vocabulary1 =>
      if includes (toLowerCase word) lowerData then Some word
      else firstIncluded vocabulary1 lowerData
  end.

Definition commonBrands : list jsstring :=
  [lit "Nike"; lit "Adidas"; lit "Puma"; lit "Reebok"; lit "Levi's";
   lit "Zara"; lit "H&M"; lit "Generic"].

Definition extractBrand (rawData : jsstring) (row : CatalogRow)
  : jsstring :=
  if negb (falsy (row !! lit "brand")) then str (row !! lit "brand")
  else
    let lowerData := toLowerCase rawData in
    match firstIncluded commonBrands lowerData with
    | Some brand => brand
    | None => lit "Generic"
    end.

Definition categories : list jsstring :=
  [lit "Shirt"; lit "T-Shirt"; lit "Jeans"; lit "Shoes"; lit "Dress";
   lit "Jacket"; lit "Accessories"].

Definition extractCategory (rawData : jsstring) (row : CatalogRow)
  : jsstring :=
  if negb (falsy (row !! lit "category")) then str (row !! lit "category")
  else
    let lowerData := toLowerCase rawData in
    match firstIncluded categories lowerData with
    | Some cat => cat
    | None => lit "General"
    end.

Definition colors : list jsstring :=
  [lit "Black"; lit "White"; lit "Red"; lit "Blue"; lit "Green";
   lit "Yellow"; lit "Pink"; lit "Grey"; lit "Brown"; lit "Navy"].

Definition extractColor (rawData : jsstring) (row : CatalogRow)
  : jsstring :=
  if negb (falsy (row !! lit "color")) then str (row !! lit "color")
  else
    let lowerData := toLowerCase rawData in
    match firstIncluded colors lowerData with
    | Some color => color
    | None => lit "Multi"
    end.

(** [/\b(XS|S|M|L|XL|XXL|XXXL|28|30|32|34|36|38|40|42)\b/i] *)
Definition sizePattern : regex :=
  Seq WordBoundary
    (Seq (Group (Alts (map (Word LitI)
            [lit "XS"; lit "S"; lit "M"; lit "L"; lit "XL"; lit "XXL";
             lit "XXXL"; lit "28"; lit "30"; lit "32"; lit "34"; lit "36";
             lit "38"; lit "40"; lit "42"])))
       WordBoundary).

Definition extractSize (rawData : jsstring) (row : CatalogRow)
  : jsstring :=
  if negb (falsy (row !! lit "size")) then str (row !! lit "size")
  else
    match match1 sizePattern rawData with
    | Some group1 => toUpperCase group1
    | None => lit "M"
    end.

Definition materials : list jsstring :=
  [lit "Cotton"; lit "Polyester"; lit "Silk"; lit "Wool"; lit "Denim";
   lit "Leather"; lit "Synthetic"].

Definition extractMaterial (rawData : jsstring) (row : CatalogRow)
  : jsstring :=
  if negb (falsy (row !! lit "material")) then str (row !! lit "material")
  else
    let lowerData := toLowerCase rawData in
    match firstIncluded materials lowerData with
    | Some material => material
    | None => lit "Cotton"
    end.

Definition platforms : list jsstring :=
  [lit "amazon"; lit "flipkart"; lit "meesho"; lit "myntra"].

(** The literal [1.25]. *)
Definition markup : number := ofDecimal false 125 (-2).

(** [price > 0 ? (price * 1.25).toFixed(2) : ''] with
    [price = parseFloat(text) || 0] *)
Definition mrpOf (text : jsstring) : jsstring :=
  let price :=
    if truthy (parseFloat text) then parseFloat text
    else S754_zero false in
  if gt price (S754_zero false) then toFixed 2 (mul price markup) else [].

(** The body of the [platforms.forEach] callback. *)
Definition platformFields (rawInfo : jsstring) (enrichedRow : CatalogRow)
  (platform : jsstring) : CatalogRow :=
  let enrichedRow :=
    assignIfEmpty (platform ++ lit "_title")
      (generatePlatformTitle platform enrichedRow rawInfo) enrichedRow in
  let enrichedRow :=
    assignIfEmpty (platform ++ lit "_description")
      (generatePlatformDescription platform enrichedRow rawInfo)
      enrichedRow in
  assignIfEmpty (platform ++ lit "_keywords")
    (generateKeywords platform enrichedRow rawInfo) enrichedRow.

(** The body of the [catalog.map] callback once [rawInfo] is chosen
    (lines 38 to 100); [enrichedRow] starts as the copy [{ ...row }]. *)
Definition enrichFields (rawInfo : jsstring) (row : CatalogRow)
  : CatalogRow :=
  let enrichedRow := row in
  let enrichedRow :=
    if falsy (enrichedRow !! lit "product_title") && nonEmpty rawInfo
    then <[lit "product_title" := generateTitle rawInfo row]> enrichedRow
    else enrichedRow in
  let enrichedRow :=
    assignIfEmpty (lit "description") (generateDescription rawInfo row)
      enrichedRow in
  let enrichedRow :=
    assignIfEmpty (lit "price")
      (str (Some (extractPrice rawInfo) ||| row !! lit "price"
            ||| Some []))
      enrichedRow in
  let enrichedRow :=
    assignIfEmpty (lit "mrp") (mrpOf (str (enrichedRow !! lit "price")))
      enrichedRow in
  let enrichedRow :=
    fold_left (platformFields rawInfo) platforms enrichedRow in
  let enrichedRow :=
    assignIfEmpty (lit "brand") (extractBrand rawInfo row) enrichedRow in
  let enrichedRow :=
    assignIfEmpty (lit "category") (extractCategory rawInfo row)
      enrichedRow in
  let enrichedRow :=
    assignIfEmpty (lit "color") (extractColor rawInfo row) enrichedRow in
  let enrichedRow :=
    assignIfEmpty (lit "size") (extractSize rawInfo row) enrichedRow in
  let enrichedRow :=
    assignIfEmpty (lit "material") (extractMaterial rawInfo row)
      enrichedRow in
  assignIfEmpty (lit "stock_status") (lit "In Stock") enrichedRow.

(** [rawData.split('\n').filter(line => line.trim())] *)
Definition rawLinesOf (rawData : jsstring) : list jsstring :=
  List.filter (fun line => nonEmpty (trim line)) (split 10 rawData).

(** [rawLines[index] || rawLines[0] || ''] *)
Definition rawInfoAt (rawLines : list jsstring) (index : nat) : jsstring :=
  str (rawLines !! index ||| rawLines !! 0%nat ||| Some []).

(** The [catalog.map] callback. *)
Definition enrichRow (rawLines : list jsstring) (index : nat)
  (row : CatalogRow) : CatalogRow :=
  enrichFields (rawInfoAt rawLines index) row.

(** The handler.  With string-valued rows no step of the callback
    throws, so the [catch] branch (status 500) is not reached. *)
Definition POST (request : EnrichRequest) : response :=
  match catalog request with
  | None | Some [] => Error 400 (lit "Invalid catalog data")
  | Some rows =>
      match rawData request with
      | None | Some [] => Error 400 (lit "Raw data is required")
      | Some text =>
          let rawLines := rawLinesOf text in
          Enriched (imap (enrichRow rawLines) rows)
      end
  end.

End Route.

Import JsString JsRegExp JsNumber Route.

(** ** The page that calls the route

    The two handlers of the front-end page that decide from the state of
    the page alone: the reply to a spoken command and the call of the
    route.  The state variables that a handler reads are its arguments. *)

Module Page.
Import JsString JsNumber Route.

Inductive Role : Type := user | assistant.

(** [interface Message] *)
Record Message : Type := { role : Role; content : jsstring }.

(** The state variables of [Home] that the handlers read or set. *)
Record PageState : Type := {
  catalogData : list CatalogRow;
  rawData : jsstring;
  status : jsstring;
  isProcessing : bool;
  messages : list Message
}.

(** [`${catalogData.length}`] *)
Definition count (rows : list CatalogRow) : jsstring :=
  decimal (N.of_nat (length rows)).

Definition processCommand (catalogData : list CatalogRow)
  (rawData command : jsstring) : jsstring :=
  let lowerCommand := toLowerCase command in
  if includes (lit "hello") lowerCommand || includes (lit "hi") lowerCommand
  then lit "Hello! I'm JARVIS, your personal AI agent. I can help you manage your e-commerce catalogs for Amazon, Flipkart, Meesho, and Myntra. Upload your catalog sheet and raw data, and I'll enrich it for you."
  else if includes (lit "catalog") lowerCommand
          || includes (lit "sheet") lowerCommand
  then
    if (length catalogData =? 0)%nat
    then lit "Please upload your catalog sheet first using the upload button."
    else lit "I have loaded " ++ count catalogData
         ++ lit " items in your catalog. You can now provide raw data for me to fill in the details."
  else if includes (lit "status") lowerCommand
  then
    lit "Catalog has " ++ count catalogData ++ lit " rows. Raw data is "
    ++ (if nonEmpty rawData then lit "provided" else lit "not provided")
    ++ lit ". Ready to process when you give the command."
  else if includes (lit "process") lowerCommand
          || includes (lit "fill") lowerCommand
          || includes (lit "enrich") lowerCommand
  then
    if (length catalogData =? 0)%nat
    then lit "Please upload your catalog sheet first."
    else if negb (nonEmpty rawData)
    then lit "Please provide raw data for me to work with."
    else lit "Processing your catalog with the provided data. This will enrich your product listings for all platforms."
  else if includes (lit "help") lowerCommand
  then lit "I can help you with catalog management for Amazon, Flipkart, Meesho, and Myntra. Upload your catalog sheet, provide raw product data, and I'll enrich it with proper titles, descriptions, prices, and attributes suitable for each platform."
  else lit "I'm here to help with your e-commerce catalog management. Try saying 'help' to learn what I can do.".

(** [enrichCatalog].  [fetch] stands for the request to [/api/enrich] and
    the decoding of its answer: it gives the body of the answer, or [None]
    when the request or the decoding throws.  Speaking the message aloud
    is left out. *)
Definition enrichCatalog (fetch : EnrichRequest → option response)
  (st : PageState) : PageState :=
  if (length (catalogData st) =? 0)%nat then
    {| catalogData := catalogData st; rawData := rawData st;
       status := lit "Please upload catalog first";
       isProcessing := isProcessing st; messages := messages st |}
  else if negb (nonEmpty (rawData st)) then
    {| catalogData := catalogData st; rawData := rawData st;
       status := lit "Please provide raw data";
       isProcessing := isProcessing st; messages := messages st |}
  else
    match
      fetch (Build_EnrichRequest (Some (catalogData st)) (Some (rawData st)))
    with
    | Some (Enriched enrichedCatalog) =>
        let msg := lit "Catalog enriched successfully! Ready to download." in
        {| catalogData := enrichedCatalog; rawData := rawData st;
           status := msg; isProcessing := false;
           messages := messages st ++ [{| role := assistant;
                                          content := msg |}] |}
    | Some (Error _ _) =>
        {| catalogData := catalogData st; rawData := rawData st;
           status := lit "Enriching catalog..."; isProcessing := false;
           messages := messages st |}
    | None =>
        {| catalogData := catalogData st; rawData := rawData st;
           status := lit "Error enriching catalog"; isProcessing := false;
           messages := messages st |}
    end.

End Page.

(** ** The words of the specification

    The definitions of this part follow the text of the specification, not
    the source; the theorems compare them with the route.

    First the keys that the data model lists for an enriched row: ten
    common fields and three fields for each platform. *)

Definition platformKeys (platform : jsstring) : list jsstring :=
  [platform ++ lit "_title"; platform ++ lit "_description";
   platform ++ lit "_keywords"].

Definition derivedKeys : list jsstring :=
  [lit "product_title"; lit "description"; lit "price"; lit "mrp";
   lit "brand"; lit "category"; lit "color"; lit "size"; lit "material";
   lit "stock_status"]
  ++ concat (map platformKeys platforms).

(** The raw line that the specification pairs with the row at [index]. *)
Definition pairedLine (rawLines : list jsstring) (index : nat) : jsstring :=
  match rawLines !! index with
  | Some line => line
  | None =>
      match rawLines with
      | first :: _ => first
      | [] => []
      end
  end.

(** A string is blank when every code unit of it is white space. *)
Definition blank (s : jsstring) : bool := forallb isWhiteSpace s.

(** The digit group that the specification describes, read once its first
    digit is consumed: further digits, a comma when a digit follows it, and
    at the end a point when two digits follow it.  [groupTail] is the text
    of the group after its first digit and [afterTail] is the input left
    after the group. *)
Fixpoint groupTail (s : jsstring) : jsstring :=
  match s with
  | c :: s1 =>
      if isDigit c then c :: groupTail s1
      else if c =? 44 then
        match s1 with
        | d :: _ => if isDigit d then c :: groupTail s1 else []
        | [] => []
        end
      else if c =? 46 then
        match s1 with
        | d1 :: d2 :: _ => if isDigit d1 && isDigit d2 then [c; d1; d2] else []
        | _ => []
        end
      else []
  | [] => []
  end.

Fixpoint afterTail (s : jsstring) : jsstring :=
  match s with
  | c :: s1 =>
      if isDigit c then afterTail s1
      else if c =? 44 then
        match s1 with
        | d :: _ => if isDigit d then afterTail s1 else s
        | [] => s
        end
      else if c =? 46 then
        match s1 with
        | d1 :: d2 :: s2 => if isDigit d1 && isDigit d2 then s2 else s
        | _ => s
        end
      else s
  | [] => []
  end.

(** The input left after an optional point and two digits. *)
Definition afterFraction (s : jsstring) : jsstring :=
  match s with
  | c :: d1 :: d2 :: s2 =>
      if (c =? 46) && isDigit d1 && isDigit d2 then s2 else s
  | _ => s
  end.

(** The shape that the specification gives to the marked price: digits, a
    point and exactly two digits. *)
Definition twoDecimals (s : jsstring) : bool :=
  match reverse s with
  | d2 :: d1 :: p :: whole =>
      isDigit d2 && isDigit d1 && (p =? 46) && nonEmpty whole
      && forallb isDigit whole
  | _ => false
  end.

(** The number of hundredths that such a string denotes. *)
Definition hundredths (s : jsstring) : N :=
  digitsValue (List.filter (λ c, negb (c =? 46)) s).

(** [n] is the integer nearest to [10^f * m * 2^e], the larger one when
    two integers are as near. *)
Definition isNearestScaled (f : nat) (m : positive) (e : Z) (n : Z) : Prop :=
  match e with
  | Zneg p =>
      (- Z.pow 2 (Zpos p)
       ≤ 2 * (Z.pow 10 (Z.of_nat f) * Zpos m - n * Z.pow 2 (Zpos p))
       < Z.pow 2 (Zpos p))%Z
  | _ => n = (Z.pow 10 (Z.of_nat f) * Zpos m * Z.pow 2 e)%Z
  end.

(** No code unit of the string is a digit. *)
Definition digitFree (s : jsstring) : bool :=
  forallb (λ c, negb (isDigit c)) s.

(** The first maximal digit group of a line: it starts at the first digit
    of the line, whatever comes before that digit. *)
Definition firstDigitGroup (line : jsstring) : option jsstring :=
  match dropWhile (λ c, negb (isDigit c)) line with
  | d :: s1 => Some (d :: groupTail s1)
  | [] => None
  end.

(** The sizes that the size pattern lists, in its order. *)
Definition sizeNames : list jsstring :=
  [lit "XS"; lit "S"; lit "M"; lit "L"; lit "XL"; lit "XXL"; lit "XXXL";
   lit "28"; lit "30"; lit "32"; lit "34"; lit "36"; lit "38"; lit "40";
   lit "42"].

(** The number of white-space code units of a string. *)
Definition whiteSpaceCount (s : jsstring) : nat :=
  length (List.filter isWhiteSpace s).

(** Every white-space code unit of the string is a space that does not
    follow another white-space code unit; [afterSpace] tells that the
    string comes after one. *)
Fixpoint spacedOnce (afterSpace : bool) (s : jsstring) : bool :=
  match s with
  | [] => true
  | c :: s1 =>
      if isWhiteSpace c
      then (c =? 32) && negb afterSpace && spacedOnce true s1
      else spacedOnce false s1
  end.

(** A tidy text: single spaces between words, none at either end. *)
Definition tidyForm (s : jsstring) : bool :=
  spacedOnce true s
  && match last s with
     | Some c => negb (isWhiteSpace c)
     | None => true
     end.

(** The code units of a price: digits, the comma and the point. *)
Definition priceChar (c : char) : bool :=
  isDigit c || (c =? 44) || (c =? 46).

(** The keys whose value is never empty after enrichment. *)
Definition filledKeys : list jsstring :=
  [lit "description"; lit "brand"; lit "category"; lit "color"; lit "size";
   lit "material"; lit "stock_status"]
  ++ concat (map (λ platform, [platform ++ lit "_description";
                               platform ++ lit "_keywords"]) platforms).

(** The loop that [exec] runs for [Star r] with the continuation [k]. *)
Definition starFrom {A} (r : regex) (k : mstate → option A)
  : nat → mstate → option A :=
  fix loop (fuel : nat) (st0 : mstate) {struct fuel} : option A :=
    match
      exec r st0 (fun st1 =>
        if (length (rest st1) <? length (rest st0))%nat
        then match fuel with
             | S fuel1 => loop fuel1 st1
             | O => None
             end
        else None)
    with
    | Some x => Some x
    | None => k st0
    end.

(** * Scenarios

    The embedding evaluated on the scenarios of the specification. *)

Example scenario_nike :
  let out := enrichFields (lit "Nike Blue T-Shirt M Cotton ₹1200") ∅ in
  POST {| catalog := Some [∅];
          rawData := Some (lit "Nike Blue T-Shirt M Cotton ₹1200") |}
  = Enriched [out]
  ∧ out !! lit "product_title" = Some (lit "Nike Blue T-Shirt M Cotton ₹1200")
  ∧ out !! lit "brand" = Some (lit "Nike")
  ∧ out !! lit "color" = Some (lit "Blue")
  ∧ out !! lit "category" = Some (lit "Shirt")
  ∧ out !! lit "material" = Some (lit "Cotton")
  ∧ out !! lit "size" = Some (lit "M")
  ∧ out !! lit "price" = Some (lit "1200")
  ∧ out !! lit "mrp" = Some (lit "1500.00")
  ∧ out !! lit "stock_status" = Some (lit "In Stock")
  ∧ out !! lit "flipkart_title"
    = Some (lit "Nike Blue T-Shirt M Cotton ₹1200 () -").
Proof. repeat split; vm_compute; reflexivity. Qed.

Example scenario_empty_catalog :
  POST {| catalog := Some []; rawData := Some (lit "some text") |}
  = Error 400 (lit "Invalid catalog data").
Proof. reflexivity. Qed.

Example scenario_red_dress :
  enrichFields (lit "some text") {[ lit "title" := lit "Red Dress" ]}
  !! lit "product_title" = Some (lit "Red Dress").
Proof. vm_compute. reflexivity. Qed.

Example scenario_sizes :
  extractSize (lit "axl b xxl, 32") ∅ = lit "XXL"
  ∧ extractSize (lit "size_32 s-") ∅ = lit "S"
  ∧ extractSize (lit "no size here") ∅ = lit "M".
Proof. repeat split; vm_compute; reflexivity. Qed.

Example scenario_numbers :
  parseFloat (lit "  -12.5e-3xyz") = S754_finite true 7205759403792794 (-59)
  ∧ parseFloat (lit "100,000") = ofInteger 100
  ∧ parseFloat (lit "") = S754_nan
  ∧ toFixed 2 (parseFloat (lit "1.005")) = lit "1.00"
  ∧ toFixed 2 (parseFloat (lit "0.005")) = lit "0.01"
  ∧ toFixed 2 (parseFloat (lit "1e21")) = lit "1e+21"
  ∧ toFixed 2 (parseFloat (lit "123456789012345678901234567890"))
    = lit "1.2345678901234568e+29".
Proof. repeat split; vm_compute; reflexivity. Qed.

(** * Guarded assignment *)

Section GuardedAssignment.
Implicit Types (k j v x p rawInfo : jsstring) (er row : CatalogRow).

Lemma lookup_assign_eq k x er :
  assignIfEmpty k x er !! k = if falsy (er !! k) then Some x else er !! k.
Proof.
  unfold assignIfEmpty. destruct (falsy (er !! k)); [|done].
  by rewrite lookup_insert_eq.
Qed.

Lemma lookup_assign_ne k j x er :
  k ≠ j → assignIfEmpty k x er !! j = er !! j.
Proof.
  intros Hne. unfold assignIfEmpty. destruct (falsy (er !! k)); [|done].
  by rewrite lookup_insert_ne.
Qed.

(** A guarded assignment never changes a non-empty field. *)
Lemma assign_keeps k x er j v :
  er !! j = Some v → v ≠ [] → assignIfEmpty k x er !! j = Some v.
Proof.
  intros Hj Hv. destruct (decide (k = j)) as [->|Hne].
  - rewrite lookup_assign_eq, Hj. by destruct v.
  - by rewrite lookup_assign_ne.
Qed.

Lemma assign_is_Some k x er j :
  is_Some (er !! j) → is_Some (assignIfEmpty k x er !! j).
Proof.
  intros Hj. destruct (decide (k = j)) as [->|Hne].
  - rewrite lookup_assign_eq. destruct (falsy (er !! j)); eauto.
  - by rewrite lookup_assign_ne.
Qed.

Lemma assign_sets k x er : is_Some (assignIfEmpty k x er !! k).
Proof.
  rewrite lookup_assign_eq. destruct (er !! k) as [[|c v]|]; cbn; eauto.
Qed.

Lemma assign_id k x er : falsy (er !! k) = false → assignIfEmpty k x er = er.
Proof. intros H. unfold assignIfEmpty. by rewrite H. Qed.

(** The same facts for the three assignments of one platform and for the
    loop over the platforms. *)
Lemma platformFields_keeps rawInfo er p j v :
  er !! j = Some v → v ≠ [] → platformFields rawInfo er p !! j = Some v.
Proof.
  intros Hj Hv. unfold platformFields.
  do 3 (apply assign_keeps; [|done]). done.
Qed.

Lemma platformFields_is_Some rawInfo er p j :
  is_Some (er !! j) → is_Some (platformFields rawInfo er p !! j).
Proof. intros Hj. unfold platformFields. by do 3 apply assign_is_Some. Qed.

Lemma platformFields_sets rawInfo er p j :
  j ∈ platformKeys p → is_Some (platformFields rawInfo er p !! j).
Proof.
  unfold platformKeys, platformFields. intros Hj.
  apply elem_of_cons in Hj as [->|Hj];
    [do 2 apply assign_is_Some; apply assign_sets|].
  apply elem_of_cons in Hj as [->|Hj];
    [apply assign_is_Some, assign_sets|].
  apply list_elem_of_singleton in Hj as ->. apply assign_sets.
Qed.

Lemma platformFields_id rawInfo er p :
  Forall (λ j, falsy (er !! j) = false) (platformKeys p) →
  platformFields rawInfo er p = er.
Proof.
  unfold platformKeys, platformFields. intros H.
  apply Forall_cons in H as [H1 H]. apply Forall_cons in H as [H2 H].
  apply Forall_cons in H as [H3 _]. cbv zeta.
  rewrite (assign_id (p ++ lit "_title")) by done.
  rewrite (assign_id (p ++ lit "_description")) by done.
  by apply assign_id.
Qed.

Lemma platforms_keep rawInfo ps er j v :
  er !! j = Some v → v ≠ [] →
  fold_left (platformFields rawInfo) ps er !! j = Some v.
Proof.
  revert er. induction ps as [|p ps IH]; intros er Hj Hv; [done|].
  cbn. apply IH; [|done]. by apply platformFields_keeps.
Qed.

Lemma platforms_is_Some rawInfo ps er j :
  is_Some (er !! j) →
  is_Some (fold_left (platformFields rawInfo) ps er !! j).
Proof.
  revert er. induction ps as [|p ps IH]; intros er Hj; [done|].
  cbn. by apply IH, platformFields_is_Some.
Qed.

Lemma platforms_set rawInfo ps er j :
  j ∈ concat (map platformKeys ps) →
  is_Some (fold_left (platformFields rawInfo) ps er !! j).
Proof.
  revert er. induction ps as [|p ps IH]; intros er Hj.
  - by apply elem_of_nil in Hj.
  - cbn [map concat] in Hj. apply elem_of_app in Hj as [Hj|Hj];
      cbn [fold_left].
    + by apply platforms_is_Some, platformFields_sets.
    + by apply IH.
Qed.

Lemma platforms_id rawInfo ps er :
  Forall (λ j, falsy (er !! j) = false) (concat (map platformKeys ps)) →
  fold_left (platformFields rawInfo) ps er = er.
Proof.
  induction ps as [|p ps IH]; [done|]. cbn [map concat fold_left].
  intros [Hp Hps]%Forall_app. rewrite platformFields_id by done. by apply IH.
Qed.

End GuardedAssignment.

(** * The row callback *)

Section RowCallback.
Implicit Types (k j v rawInfo : jsstring) (row : CatalogRow).

Lemma enrichFields_keeps rawInfo row j v :
  row !! j = Some v → v ≠ [] → enrichFields rawInfo row !! j = Some v.
Proof.
  intros Hj Hv. unfold enrichFields.
  do 6 (apply assign_keeps; [|done]).
  apply platforms_keep; [|done].
  do 3 (apply assign_keeps; [|done]).
  destruct (falsy (row !! lit "product_title") && nonEmpty rawInfo) eqn:E;
    [|done].
  apply andb_prop in E as [E _].
  destruct (decide (lit "product_title" = j)) as [<-|Hne].
  - rewrite Hj in E. by destruct v.
  - by rewrite lookup_insert_ne.
Qed.

Lemma mem_derived j : bool_decide (j ∈ derivedKeys) = true → j ∈ derivedKeys.
Proof. apply bool_decide_eq_true_1. Qed.

Ltac derived := apply mem_derived; vm_compute; reflexivity.

Lemma enrichFields_id rawInfo row :
  (∀ j, j ∈ derivedKeys → falsy (row !! j) = false) →
  enrichFields rawInfo row = row.
Proof.
  intros H. unfold enrichFields.
  assert (Hp : Forall (λ j, falsy (row !! j) = false)
                 (concat (map platformKeys platforms))).
  { apply Forall_forall. intros j Hj. apply H. unfold derivedKeys.
    apply elem_of_app. by right. }
  cbv zeta. rewrite (H (lit "product_title")) by derived.
  cbn [andb].
  rewrite (assign_id (lit "description")) by (apply H; derived).
  rewrite (assign_id (lit "price")) by (apply H; derived).
  rewrite (assign_id (lit "mrp")) by (apply H; derived).
  rewrite platforms_id by done.
  rewrite (assign_id (lit "brand")) by (apply H; derived).
  rewrite (assign_id (lit "category")) by (apply H; derived).
  rewrite (assign_id (lit "color")) by (apply H; derived).
  rewrite (assign_id (lit "size")) by (apply H; derived).
  rewrite (assign_id (lit "material")) by (apply H; derived).
  apply assign_id, H. derived.
Qed.

(** Walks down the assignments to the one that sets the key. *)
Ltac present :=
  repeat lazymatch goal with
    | |- is_Some (fold_left _ _ _ !! _) => apply platforms_is_Some
    | |- is_Some (assignIfEmpty ?k _ _ !! ?j) =>
        first [ constr_eq k j; apply assign_sets | apply assign_is_Some ]
    end.

(** Every derived key other than [product_title] is present after the
    callback, whatever the raw line is. *)
Lemma enrichFields_is_Some rawInfo row j :
  j ∈ derivedKeys → j ≠ lit "product_title" →
  is_Some (enrichFields rawInfo row !! j).
Proof.
  unfold derivedKeys, enrichFields. intros Hj Hne. cbv zeta.
  apply elem_of_app in Hj as [Hj|Hj].
  - repeat (apply elem_of_cons in Hj as [->|Hj];
            [first [ by destruct Hne | present ] |]).
    by apply elem_of_nil in Hj.
  - do 6 apply assign_is_Some. by apply platforms_set.
Qed.

End RowCallback.

(** * Raw lines *)

Section RawLines.
Implicit Types (s cur line text : jsstring) (p : char → bool).

Lemma dropWhile_nil_iff p s : dropWhile p s = [] ↔ forallb p s = true.
Proof.
  induction s as [|c s IH]; [done|]. cbn. destruct (p c); [done|].
  split; discriminate.
Qed.

Lemma dropWhile_head p s c s1 : dropWhile p s = c :: s1 → p c = false.
Proof.
  induction s as [|d s IH]; [done|]. cbn. destruct (p d) eqn:E; [done|].
  by intros [= <- _].
Qed.

Lemma forallb_reverse p s : forallb p (reverse s) = forallb p s.
Proof.
  induction s as [|c s IH]; [done|].
  rewrite reverse_cons, forallb_app, IH. cbn. rewrite andb_true_r.
  apply andb_comm.
Qed.

Lemma trim_blank s : blank s = true → trim s = [].
Proof.
  intros H. unfold trim, trimStart.
  by rewrite (proj2 (dropWhile_nil_iff _ _) H).
Qed.

(** A string is empty after trimming exactly when it is blank. *)
Lemma trim_nil_iff s : trim s = [] ↔ blank s = true.
Proof.
  split; [|apply trim_blank]. unfold trim, trimEnd, trimStart, blank.
  intros H. apply (f_equal reverse) in H. rewrite reverse_involutive in H.
  change (reverse []) with (@nil N) in H.
  apply dropWhile_nil_iff in H. rewrite forallb_reverse in H.
  destruct (dropWhile isWhiteSpace s) as [|c s1] eqn:E.
  - by apply dropWhile_nil_iff.
  - apply dropWhile_head in E. cbn in H. by rewrite E in H.
Qed.

Lemma trim_nonEmpty line : nonEmpty (trim line) = true → line ≠ [].
Proof. by intros H ->. Qed.

Lemma splitChar_blank sep cur s :
  blank cur = true → blank s = true →
  Forall (λ line, blank line = true) (splitChar sep cur s).
Proof.
  revert cur. induction s as [|c s IH]; intros cur Hcur Hs; cbn.
  - by constructor.
  - cbn in Hs. apply andb_prop in Hs as [Hc Hs].
    destruct (c =? sep).
    + constructor; [done|]. by apply IH.
    + apply IH; [|done]. unfold blank in *. rewrite forallb_app. cbn.
      by rewrite Hcur, Hc.
Qed.

(** Every raw line has a code unit that is not white space. *)
Lemma rawLinesOf_nonEmpty text :
  Forall (λ line, line ≠ []) (rawLinesOf text).
Proof.
  unfold rawLinesOf. apply Forall_forall. intros line Hin.
  apply list_elem_of_In, filter_In in Hin as [_ Hin].
  by apply trim_nonEmpty.
Qed.

(** A blank text has no raw line. *)
Lemma rawLinesOf_blank text : blank text = true → rawLinesOf text = [].
Proof.
  intros H. unfold rawLinesOf, split.
  assert (Hall := splitChar_blank 10 [] text eq_refl H).
  induction Hall as [|line ls Hline _ IH]; [done|]. cbn.
  by rewrite (trim_blank _ Hline).
Qed.

(** On lines that are not empty, [rawLines[index] || rawLines[0] || '']
    is the pairing that the specification describes. *)
Lemma rawInfoAt_paired (rawLines : list jsstring) (index : nat) :
  Forall (λ line, line ≠ []) rawLines →
  rawInfoAt rawLines index = pairedLine rawLines index.
Proof.
  intros Hall. unfold rawInfoAt, pairedLine.
  destruct (rawLines !! index) as [line|] eqn:E.
  - assert (line ≠ []) by (eapply Forall_lookup_1 in Hall; eauto).
    by destruct line.
  - destruct rawLines as [|first ls]; [done|]. cbn.
    apply Forall_cons in Hall as [Hfirst _]. by destruct first.
Qed.

Lemma pairedLine_nonEmpty (rawLines : list jsstring) (index : nat) :
  Forall (λ line, line ≠ []) rawLines → rawLines ≠ [] →
  pairedLine rawLines index ≠ [].
Proof.
  intros Hall Hne. unfold pairedLine.
  destruct (rawLines !! index) as [line|] eqn:E.
  - eapply Forall_lookup_1 in Hall; eauto.
  - destruct rawLines as [|first ls]; [done|].
    by apply Forall_cons in Hall as [Hfirst _].
Qed.

End RawLines.

(** * The handler *)

Section Handler.
Implicit Types (rows out : list CatalogRow) (text : jsstring).

(** A request with a non-empty catalog and a non-empty text is accepted
    and every row goes through the callback at its own index. *)
Lemma POST_accepts rows text :
  rows ≠ [] → text ≠ [] →
  POST {| catalog := Some rows; rawData := Some text |}
  = Enriched (imap (enrichRow (rawLinesOf text)) rows).
Proof. intros Hrows Htext. unfold POST. cbn. by destruct rows, text. Qed.

Lemma POST_lookup rows text (i : nat) :
  imap (enrichRow (rawLinesOf text)) rows !! i
  = enrichFields (pairedLine (rawLinesOf text) i) <$> rows !! i.
Proof.
  rewrite list_lookup_imap. unfold enrichRow.
  by rewrite rawInfoAt_paired by apply rawLinesOf_nonEmpty.
Qed.

Lemma rawInfoAt_nil (index : nat) : rawInfoAt [] index = [].
Proof. unfold rawInfoAt. by rewrite !lookup_nil. Qed.

Lemma imap_index_free {A B} (f : nat → A → B) (g : A → B) (l : list A) :
  (∀ i x, f i x = g x) → imap f l = g <$> l.
Proof.
  revert f. induction l as [|x l IH]; intros f Hf; [done|].
  cbn [imap]. rewrite fmap_cons, Hf. f_equal. apply IH.
  intros i y. apply Hf.
Qed.

Lemma enrichRow_no_lines rows :
  imap (enrichRow []) rows = enrichFields [] <$> rows.
Proof.
  apply (imap_index_free (enrichRow []) (enrichFields [])).
  intros i row. unfold enrichRow. by rewrite rawInfoAt_nil.
Qed.

End Handler.

(** * Reading one field of the result *)

Section Frame.
Implicit Types (k j v x p rawInfo : jsstring) (er row : CatalogRow).

Lemma platformFields_frame rawInfo er p j :
  j ∉ platformKeys p → platformFields rawInfo er p !! j = er !! j.
Proof.
  unfold platformKeys, platformFields. intros Hj.
  apply not_elem_of_cons in Hj as [H1 Hj].
  apply not_elem_of_cons in Hj as [H2 Hj].
  apply not_elem_of_cons in Hj as [H3 _].
  cbv zeta. by rewrite !lookup_assign_ne.
Qed.

Lemma platforms_frame rawInfo ps er j :
  j ∉ concat (map platformKeys ps) →
  fold_left (platformFields rawInfo) ps er !! j = er !! j.
Proof.
  revert er. induction ps as [|p ps IH]; intros er Hj; [done|].
  cbn [map concat] in Hj. apply not_elem_of_app in Hj as [Hp Hps].
  cbn [fold_left]. rewrite IH by done. by apply platformFields_frame.
Qed.

Lemma not_platform_key j :
  bool_decide (j ∉ concat (map platformKeys platforms)) = true →
  j ∉ concat (map platformKeys platforms).
Proof. apply bool_decide_eq_true_1. Qed.

End Frame.

(** Two keys given by literals differ. *)
Ltac key_neq :=
  let H := fresh in
  intros H; vm_compute in H; discriminate H.

(** Moves a lookup of a literal key past the assignments to other keys. *)
Ltac peel :=
  repeat lazymatch goal with
    | |- assignIfEmpty ?k ?x ?er !! ?j = _ =>
        rewrite (lookup_assign_ne k j x er) by key_neq
    | |- fold_left (platformFields ?r) platforms ?er !! ?j = _ =>
        rewrite (platforms_frame r platforms er j)
          by (apply not_platform_key; vm_compute; reflexivity)
    end.

Section Fields.
Implicit Types (rawInfo : jsstring) (row : CatalogRow).

Lemma enrichFields_product_title rawInfo row :
  enrichFields rawInfo row !! lit "product_title"
  = if falsy (row !! lit "product_title") && nonEmpty rawInfo
    then Some (generateTitle rawInfo row)
    else row !! lit "product_title".
Proof.
  unfold enrichFields. cbv zeta. peel.
  destruct (falsy (row !! lit "product_title") && nonEmpty rawInfo);
    [|done].
  by rewrite lookup_insert_eq.
Qed.

Lemma enrichFields_description rawInfo row :
  enrichFields rawInfo row !! lit "description"
  = if falsy (row !! lit "description")
    then Some (generateDescription rawInfo row)
    else row !! lit "description".
Proof.
  unfold enrichFields. cbv zeta. peel. rewrite lookup_assign_eq.
  destruct (falsy (row !! lit "product_title") && nonEmpty rawInfo);
    [|done].
  by rewrite lookup_insert_ne by key_neq.
Qed.

Lemma enrichFields_price rawInfo row :
  enrichFields rawInfo row !! lit "price"
  = if falsy (row !! lit "price")
    then Some (str (Some (extractPrice rawInfo) ||| row !! lit "price"
                    ||| Some []))
    else row !! lit "price".
Proof.
  unfold enrichFields. cbv zeta. peel. rewrite lookup_assign_eq.
  rewrite !(lookup_assign_ne (lit "description") (lit "price")) by key_neq.
  destruct (falsy (row !! lit "product_title") && nonEmpty rawInfo);
    [|done].
  by rewrite !lookup_insert_ne by key_neq.
Qed.

Lemma enrichFields_mrp rawInfo row :
  enrichFields rawInfo row !! lit "mrp"
  = if falsy (row !! lit "mrp")
    then Some (mrpOf (str (enrichFields rawInfo row !! lit "price")))
    else row !! lit "mrp".
Proof.
  rewrite enrichFields_price.
  unfold enrichFields. cbv zeta. peel. rewrite !lookup_assign_eq.
  rewrite !(lookup_assign_ne (lit "price") (lit "mrp")) by key_neq.
  rewrite !(lookup_assign_ne (lit "description") (lit "mrp")) by key_neq.
  rewrite !(lookup_assign_ne (lit "description") (lit "price")) by key_neq.
  destruct (falsy (row !! lit "product_title") && nonEmpty rawInfo);
    [|done].
  by rewrite !lookup_insert_ne by key_neq.
Qed.

End Fields.

(** * Properties of the handler *)

(** C1.  For every accepted request and every row of the catalog, a key
    whose value is not empty in the input row has the same value in the
    output row at the same index; a row in which every derived field is
    already non-empty comes back unchanged. *)
Theorem enrichment_never_overwrites (rows : list CatalogRow)
  (text : jsstring) :
  rows ≠ [] → text ≠ [] →
  ∃ out,
    POST {| catalog := Some rows; rawData := Some text |} = Enriched out
    ∧ ∀ (i : nat) (row : CatalogRow), rows !! i = Some row →
        ∃ row', out !! i = Some row'
          ∧ (∀ k v, row !! k = Some v → v ≠ [] → row' !! k = Some v)
          ∧ ((∀ k, k ∈ derivedKeys → falsy (row !! k) = false) →
             row' = row).
Proof.
  intros Hrows Htext. eexists. split; [by apply POST_accepts|].
  intros i row Hi. eexists. split; [by rewrite POST_lookup, Hi|]. split.
  - intros k v Hk Hv. by apply enrichFields_keeps.
  - apply enrichFields_id.
Qed.

Lemma enrichment_never_overwrites_witness :
  let rows : list CatalogRow := [{[ lit "title" := lit "Red Dress" ]}] in
  rows ≠ [] ∧ lit "some text" ≠ []
  ∧ ∃ out,
      POST {| catalog := Some rows; rawData := Some (lit "some text") |}
      = Enriched out
      ∧ ∀ (i : nat) (row : CatalogRow), rows !! i = Some row →
          ∃ row', out !! i = Some row'
            ∧ (∀ k v, row !! k = Some v → v ≠ [] → row' !! k = Some v)
            ∧ ((∀ k, k ∈ derivedKeys → falsy (row !! k) = false) →
               row' = row).
Proof.
  intros rows. split; [discriminate|]. split; [vm_compute; discriminate|].
  apply enrichment_never_overwrites; [discriminate|vm_compute; discriminate].
Defined.

(** C2, as the code has it.  For every accepted request, every row of the
    result contains every derived key other than [product_title];
    [product_title] is present exactly when the text has a line that is not
    blank or the input row already has that key. *)
Theorem derived_keys_present (rows : list CatalogRow) (text : jsstring) :
  rows ≠ [] → text ≠ [] →
  ∃ out,
    POST {| catalog := Some rows; rawData := Some text |} = Enriched out
    ∧ ∀ (i : nat) (row : CatalogRow), rows !! i = Some row →
        ∃ row', out !! i = Some row'
          ∧ (∀ k, k ∈ derivedKeys → k ≠ lit "product_title" →
             is_Some (row' !! k))
          ∧ (is_Some (row' !! lit "product_title")
             ↔ rawLinesOf text ≠ [] ∨ is_Some (row !! lit "product_title")).
Proof.
  intros Hrows Htext. eexists. split; [by apply POST_accepts|].
  intros i row Hi. eexists. split; [by rewrite POST_lookup, Hi|]. split.
  - intros k Hk Hne. by apply enrichFields_is_Some.
  - rewrite enrichFields_product_title.
    destruct (rawLinesOf text) as [|first ls] eqn:E.
    + unfold pairedLine. rewrite lookup_nil, andb_false_r.
      split; [by right|]. by intros [?|?].
    + split; [intros _; by left|]. intros _.
      assert (Hp : pairedLine (first :: ls) i ≠ []).
      { apply pairedLine_nonEmpty; [|done]. rewrite <- E.
        apply rawLinesOf_nonEmpty. }
      destruct (pairedLine (first :: ls) i), (row !! lit "product_title")
        as [[|c v]|]; cbn; try done; eauto.
Qed.

Lemma derived_keys_present_witness :
  let rows : list CatalogRow := [∅] in
  let text := lit "Nike Blue T-Shirt M Cotton ₹1200" in
  rows ≠ [] ∧ text ≠ []
  ∧ ∃ out,
      POST {| catalog := Some rows; rawData := Some text |} = Enriched out
      ∧ ∀ (i : nat) (row : CatalogRow), rows !! i = Some row →
          ∃ row', out !! i = Some row'
            ∧ (∀ k, k ∈ derivedKeys → k ≠ lit "product_title" →
               is_Some (row' !! k))
            ∧ (is_Some (row' !! lit "product_title")
               ↔ rawLinesOf text ≠ []
                 ∨ is_Some (row !! lit "product_title")).
Proof.
  intros rows text. split; [discriminate|]. split; [vm_compute; discriminate|].
  apply derived_keys_present; [discriminate|vm_compute; discriminate].
Defined.

(** C2 as stated fails: the request with the catalog [[{}]] and the text
    [" "] is accepted, and the row of the result has no [product_title]. *)
Lemma blank_text_leaves_no_title :
  ∃ row',
    POST {| catalog := Some [∅]; rawData := Some (lit " ") |}
    = Enriched [row']
    ∧ lit "product_title" ∈ derivedKeys
    ∧ row' !! lit "product_title" = None.
Proof.
  eexists. split; [reflexivity|]. split.
  - apply mem_derived. vm_compute. reflexivity.
  - vm_compute. reflexivity.
Qed.

(** C3, as the code has it.  With a non-empty catalog, the handler answers
    400 "Raw data is required" exactly when the text is missing or is the
    empty string.  A text that is not empty but blank is accepted: it has
    no raw line, and every row is enriched with the empty raw line. *)
Theorem raw_data_required (rows : list CatalogRow)
  (rawText : option jsstring) :
  rows ≠ [] →
  (POST {| catalog := Some rows; rawData := rawText |}
   = Error 400 (lit "Raw data is required")
   ↔ rawText = None ∨ rawText = Some [])
  ∧ ∀ text, rawText = Some text → text ≠ [] → trim text = [] →
      POST {| catalog := Some rows; rawData := rawText |}
      = Enriched (enrichFields [] <$> rows).
Proof.
  intros Hrows. split.
  - destruct rows as [|row rows]; [done|].
    destruct rawText as [[|c text]|]; cbn.
    + split; [by right|done].
    + split; [done|]. by intros [?|?].
    + split; [by left|done].
  - intros text -> Htext Htrim. rewrite POST_accepts by done. f_equal.
    apply trim_nil_iff in Htrim. rewrite rawLinesOf_blank by done.
    apply enrichRow_no_lines.
Qed.

Lemma raw_data_required_witness :
  let rows : list CatalogRow := [∅] in
  rows ≠ []
  ∧ (POST {| catalog := Some rows; rawData := None |}
     = Error 400 (lit "Raw data is required")
     ↔ @None jsstring = None ∨ @None jsstring = Some [])
  ∧ (lit " " ≠ [] ∧ trim (lit " ") = []
     ∧ POST {| catalog := Some rows; rawData := Some (lit " ") |}
       = Enriched (enrichFields [] <$> rows)).
Proof.
  intros rows. split; [discriminate|]. split.
  - apply (raw_data_required rows None). discriminate.
  - split; [vm_compute; discriminate|]. split; [reflexivity|].
    apply (proj2 (raw_data_required rows (Some (lit " "))
                    ltac:(discriminate)) (lit " "));
      [reflexivity|vm_compute; discriminate|reflexivity].
Defined.

(** C3 as stated fails: the text [" "] is not empty and is blank, yet the
    request is accepted and its row is enriched. *)
Lemma blank_text_is_accepted :
  lit " " ≠ [] ∧ trim (lit " ") = []
  ∧ POST {| catalog := Some [∅]; rawData := Some (lit " ") |}
    = Enriched [enrichFields [] ∅]
  ∧ POST {| catalog := Some [∅]; rawData := Some (lit " ") |}
    ≠ Error 400 (lit "Raw data is required").
Proof.
  split; [vm_compute; discriminate|]. split; [reflexivity|].
  split; [reflexivity|discriminate].
Qed.

(** C7.  For every accepted request, the row at index [i] is enriched with
    the raw line at index [i] when there is one, else with the first raw
    line when there is one, else with the empty string.  With two raw
    lines and five rows, the rows at indices 2, 3 and 4 use the first raw
    line. *)
Theorem raw_line_pairing (rows : list CatalogRow) (text : jsstring) :
  rows ≠ [] → text ≠ [] →
  ∃ out,
    POST {| catalog := Some rows; rawData := Some text |} = Enriched out
    ∧ (∀ (i : nat) (row : CatalogRow), rows !! i = Some row →
         out !! i
         = Some (enrichFields
                   (match rawLinesOf text !! i with
                    | Some line => line
                    | None =>
                        match rawLinesOf text !! 0%nat with
                        | Some first => first
                        | None => []
                        end
                    end) row))
    ∧ (∀ first second, rawLinesOf text = [first; second] →
       length rows = 5%nat →
       ∀ (i : nat) (row : CatalogRow), (2 ≤ i)%nat → rows !! i = Some row →
         out !! i = Some (enrichFields first row)).
Proof.
  intros Hrows Htext. eexists. split; [by apply POST_accepts|]. split.
  - intros i row Hi. rewrite POST_lookup, Hi. cbn. do 2 f_equal.
    unfold pairedLine. by destruct (rawLinesOf text).
  - intros first second Hlines _ i row Hge Hi.
    rewrite POST_lookup, Hi, Hlines. cbn. do 2 f_equal.
    unfold pairedLine. destruct i as [|[|i]]; [lia|lia|done].
Qed.

Lemma raw_line_pairing_witness :
  let rows : list CatalogRow := [∅; ∅; ∅; ∅; ∅] in
  let text := lit "Nike shoes" ++ [10] ++ lit "Puma jacket" in
  rows ≠ [] ∧ text ≠ []
  ∧ ∃ out,
      POST {| catalog := Some rows; rawData := Some text |} = Enriched out
      ∧ (∀ (i : nat) (row : CatalogRow), rows !! i = Some row →
           out !! i
           = Some (enrichFields
                     (match rawLinesOf text !! i with
                      | Some line => line
                      | None =>
                          match rawLinesOf text !! 0%nat with
                          | Some first => first
                          | None => []
                          end
                      end) row))
      ∧ (∀ first second, rawLinesOf text = [first; second] →
         length rows = 5%nat →
         ∀ (i : nat) (row : CatalogRow), (2 ≤ i)%nat →
           rows !! i = Some row →
           out !! i = Some (enrichFields first row)).
Proof.
  intros rows text. split; [discriminate|]. split; [vm_compute; discriminate|].
  apply raw_line_pairing; [discriminate|vm_compute; discriminate].
Defined.

(** C8.  For every accepted request the result has the length of the
    catalog, and its row at each index is the callback applied to the
    catalog row at that index. *)
Theorem row_count_preserved (rows : list CatalogRow) (text : jsstring) :
  rows ≠ [] → text ≠ [] →
  ∃ out,
    POST {| catalog := Some rows; rawData := Some text |} = Enriched out
    ∧ length out = length rows
    ∧ ∀ i : nat, out !! i = enrichRow (rawLinesOf text) i <$> rows !! i.
Proof.
  intros Hrows Htext. eexists. split; [by apply POST_accepts|]. split.
  - apply length_imap.
  - intros i. apply list_lookup_imap.
Qed.

Lemma row_count_preserved_witness :
  let rows : list CatalogRow := [∅; {[ lit "title" := lit "Red Dress" ]}] in
  let text := lit "some text" in
  rows ≠ [] ∧ text ≠ []
  ∧ ∃ out,
      POST {| catalog := Some rows; rawData := Some text |} = Enriched out
      ∧ length out = length rows
      ∧ ∀ i : nat, out !! i = enrichRow (rawLinesOf text) i <$> rows !! i.
Proof.
  intros rows text. split; [discriminate|]. split; [vm_compute; discriminate|].
  apply row_count_preserved; [discriminate|vm_compute; discriminate].
Defined.

(** * The price pattern *)

Section PricePattern.
Context {A : Type}.
Implicit Types (k : mstate → option A) (s t pre : jsstring)
  (pv : option char) (cap : option jsstring) (n : nat).

Lemma exec_Eps st k : exec Eps st k = k st.
Proof. reflexivity. Qed.

Lemma exec_Chr (p : char → bool) st k :
  exec (Chr p) st k
  = match rest st with
    | c :: s1 => if p c then k (MState (Some c) s1 (cap1 st)) else None
    | [] => None
    end.
Proof. reflexivity. Qed.

Lemma exec_Seq r1 r2 st k :
  exec (Seq r1 r2) st k = exec r1 st (λ st1, exec r2 st1 k).
Proof. reflexivity. Qed.

Lemma exec_Alt r1 r2 st k :
  exec (Alt r1 r2) st k
  = match exec r1 st k with
    | Some x => Some x
    | None => exec r2 st k
    end.
Proof. reflexivity. Qed.

Lemma exec_Group r st k :
  exec (Group r) st k
  = exec r st (λ st1,
      k (MState (prev st1) (rest st1)
           (Some (take (length (rest st) - length (rest st1)) (rest st))))).
Proof. reflexivity. Qed.

(** One step of the matcher on a pattern whose head is known. *)
Ltac run :=
  repeat (first [ rewrite exec_Seq | rewrite exec_Chr | rewrite exec_Alt
                | rewrite exec_Eps ];
          cbn [rest cap1 prev]).

Lemma exec_Star r st k :
  exec (Star r) st k = starFrom r k (length (rest st)) st.
Proof. reflexivity. Qed.

Lemma starFrom_unfold r k n st :
  starFrom r k n st
  = match
      exec r st (fun st1 =>
        if (length (rest st1) <? length (rest st))%nat
        then match n with
             | S n1 => starFrom r k n1 st1
             | O => None
             end
        else None)
    with
    | Some x => Some x
    | None => k st
    end.
Proof. by destruct n. Qed.

(** The greedy star over a class of code units takes the longest run when
    the continuation accepts the state after it. *)
Lemma star_class_greedy (p : char → bool) k cap s : ∀ n pv,
  (length s ≤ n)%nat →
  (∀ pv1, is_Some (k (MState pv1 (dropWhile p s) cap))) →
  ∃ pv1,
    starFrom (Chr p) k n (MState pv s cap)
    = k (MState pv1 (dropWhile p s) cap).
Proof.
  induction s as [|c s IH]; intros n pv Hn Hk.
  - exists pv. by rewrite starFrom_unfold.
  - rewrite starFrom_unfold. cbn [exec rest cap1 dropWhile] in *.
    destruct (p c) eqn:Hc; [|by exists pv].
    rewrite (proj2 (Nat.ltb_lt _ _)) by (cbn; lia).
    destruct n as [|n]; [cbn in Hn; lia|].
    destruct (IH n (Some c)) as [pv1 Heq]; [cbn in Hn; lia|done|].
    exists pv1. rewrite Heq. by destruct (Hk pv1) as [x ->].
Qed.

(** It also takes the longest run when the continuation rejects every
    state that starts with a code unit of the class. *)
Lemma star_class_longest (p : char → bool) k cap s : ∀ n pv,
  (length s ≤ n)%nat →
  (∀ pv1 c s1, p c = true → k (MState pv1 (c :: s1) cap) = None) →
  ∃ pv1,
    starFrom (Chr p) k n (MState pv s cap)
    = k (MState pv1 (dropWhile p s) cap).
Proof.
  induction s as [|c s IH]; intros n pv Hn Hk.
  - exists pv. by rewrite starFrom_unfold.
  - rewrite starFrom_unfold. cbn [exec rest cap1 dropWhile] in *.
    destruct (p c) eqn:Hc; [|by exists pv].
    rewrite (proj2 (Nat.ltb_lt _ _)) by (cbn; lia).
    destruct n as [|n]; [cbn in Hn; lia|].
    destruct (IH n (Some c)) as [pv1 Heq]; [cbn in Hn; lia|done|].
    exists pv1. rewrite Heq.
    destruct (k (MState pv1 (dropWhile p s) cap)) eqn:E; [done|].
    by rewrite Hk.
Qed.

Lemma length_dropWhile (p : char → bool) s :
  (length (dropWhile p s) ≤ length s)%nat.
Proof.
  induction s as [|c s IH]; [done|]. cbn. destruct (p c); cbn; lia.
Qed.

Lemma afterTail_digits s : afterTail (dropWhile isDigit s) = afterTail s.
Proof.
  induction s as [|c s IH]; [done|]. cbn [dropWhile].
  destruct (isDigit c) eqn:E; [|done]. cbn [afterTail]. by rewrite E.
Qed.

Lemma group_split s : groupTail s ++ afterTail s = s.
Proof.
  induction s as [|c s IH]; [done|]. cbn [groupTail afterTail].
  destruct (isDigit c); [by rewrite <- IH at 3|].
  destruct (c =? 44).
  - destruct s as [|d s]; [done|].
    destruct (isDigit d); [by rewrite <- IH at 3|done].
  - destruct (c =? 46); [|done].
    destruct s as [|d1 [|d2 s]]; try done.
    by destruct (isDigit d1 && isDigit d2).
Qed.

(** The optional fraction, before a continuation that accepts every
    state. *)
Lemma fraction_optional k pv t cap :
  (∀ st, is_Some (k st)) →
  ∃ pv1,
    exec (Opt (Seq (Lit 46) (Seq (Chr isDigit) (Chr isDigit))))
      (MState pv t cap) k
    = k (MState pv1 (afterFraction t) cap).
Proof.
  intros Hk. unfold Opt, Lit. rewrite exec_Alt, exec_Seq, exec_Chr, exec_Eps.
  cbn [rest cap1].
  destruct t as [|c t]; [by exists pv|]. rewrite (N.eqb_sym 46 c).
  destruct t as [|d1 [|d2 t]]; cbn [afterFraction].
  - exists pv. destruct (c =? 46); [|done]. by run.
  - exists pv. destruct (c =? 46); [|done]. run. by destruct (isDigit d1).
  - destruct (c =? 46); [|by exists pv]. run.
    destruct (isDigit d1); [|by exists pv]. cbn [andb].
    destruct (isDigit d2); [|by exists pv].
    exists (Some d2). by destruct (Hk (MState (Some d2) t cap)) as [x ->].
Qed.

Lemma dropWhile_idemp (p : char → bool) s :
  dropWhile p (dropWhile p s) = dropWhile p s.
Proof.
  induction s as [|c s IH]; [done|]. cbn. destruct (p c) eqn:E; [done|].
  cbn. by rewrite E.
Qed.

(** The groups of a comma and digits, then the optional fraction, from a
    position that is not at a digit and before a continuation that accepts
    every state: the input left is [afterTail]. *)
Lemma comma_groups k cap : ∀ n t pv,
  (∀ st, is_Some (k st)) →
  (length t ≤ n)%nat → dropWhile isDigit t = t →
  ∃ pv1,
    starFrom (Seq (Lit 44) (Plus (Chr isDigit)))
      (λ st, exec (Opt (Seq (Lit 46) (Seq (Chr isDigit) (Chr isDigit)))) st k)
      n (MState pv t cap)
    = k (MState pv1 (afterTail t) cap).
Proof.
  unfold Plus, Lit at 1.
  induction n as [|n IH]; intros t pv Hk Hn Ht.
  - destruct t; [|cbn in Hn; lia]. rewrite starFrom_unfold.
    run. by apply fraction_optional.
  - rewrite starFrom_unfold. run.
    assert (Hfrac : ∀ t1, afterFraction t1 = afterTail t1 →
      ∃ pv1,
        exec (Opt (Seq (Lit 46) (Seq (Chr isDigit) (Chr isDigit))))
          (MState pv t1 cap) k
        = k (MState pv1 (afterTail t1) cap)).
    { intros t1 <-. by apply fraction_optional. }
    destruct t as [|c t]; [by apply Hfrac|].
    cbn [dropWhile] in Ht.
    destruct (isDigit c) eqn:Ec.
    { pose proof (length_dropWhile isDigit t) as Hlen.
      apply (f_equal length) in Ht. cbn in Ht. lia. }
    rewrite (N.eqb_sym 44 c).
    destruct (c =? 44) eqn:E44.
    + run. destruct t as [|d t].
      { apply Hfrac. cbn. by rewrite Ec, E44. }
      destruct (isDigit d) eqn:Ed.
      * rewrite exec_Star. cbn [rest cap1].
        edestruct (star_class_greedy isDigit) as [pv1 ->]; [done| |].
        { intros pv1. cbn beta. cbn [rest].
          rewrite (proj2 (Nat.ltb_lt _ _))
            by (pose proof (length_dropWhile isDigit t); cbn; lia).
          edestruct (IH (dropWhile isDigit t) pv1) as [pv2 ->]; [done| | |done].
          - pose proof (length_dropWhile isDigit t). cbn in Hn. lia.
          - apply dropWhile_idemp. }
        cbn [rest]. rewrite (proj2 (Nat.ltb_lt _ _))
          by (pose proof (length_dropWhile isDigit t); cbn; lia).
        edestruct (IH (dropWhile isDigit t) pv1) as [pv2 Heq]; [done| | |].
        { pose proof (length_dropWhile isDigit t). cbn in Hn. lia. }
        { apply dropWhile_idemp. }
        exists pv2. rewrite Heq. destruct (Hk (MState pv2
          (afterTail (dropWhile isDigit t)) cap)) as [x Hx]. rewrite Hx.
        rewrite <- Hx. do 2 f_equal. rewrite afterTail_digits.
        cbn [afterTail]. rewrite Ec, E44. by rewrite !Ed.
      * apply Hfrac. cbn. rewrite Ec, E44, Ed.
        destruct t as [|d2 t]; [done|].
        destruct (c =? 46) eqn:E46; [|done].
        apply N.eqb_eq in E44, E46. congruence.
    + apply Hfrac. cbn [afterTail afterFraction]. rewrite Ec, E44.
      destruct (c =? 46); [|by destruct t as [|? [|? ?]]].
      by destruct t as [|d1 [|d2 t]].
Qed.

(** The group of the price pattern at a digit. *)
Lemma priceGroup_at_digit k pv d s cap :
  (∀ st, is_Some (k st)) → isDigit d = true →
  ∃ pv1,
    exec priceGroup (MState pv (d :: s) cap) k
    = k (MState pv1 (afterTail s) cap).
Proof.
  intros Hk Hd. unfold priceGroup. unfold Plus at 1.
  rewrite !exec_Seq, exec_Chr. cbn [rest cap1]. rewrite Hd, exec_Star.
  cbn [rest].
  assert (Hcomma : ∀ pv1, ∃ pv2,
    exec (Seq (Star (Seq (Lit 44) (Plus (Chr isDigit))))
            (Opt (Seq (Lit 46) (Seq (Chr isDigit) (Chr isDigit)))))
      (MState pv1 (dropWhile isDigit s) cap) k
    = k (MState pv2 (afterTail s) cap)).
  { intros pv1. rewrite exec_Seq, exec_Star. cbn [rest].
    rewrite <- (afterTail_digits s).
    apply comma_groups; [done|done|apply dropWhile_idemp]. }
  edestruct (star_class_greedy isDigit) as [pv1 ->]; [done| |].
  - intros pv1. destruct (Hcomma pv1) as [pv2 ->]. apply Hk.
  - apply Hcomma.
Qed.

Lemma priceGroup_not_at_digit k pv s cap :
  dropWhile isDigit s = s → exec priceGroup (MState pv s cap) k = None.
Proof.
  intros Hs. unfold priceGroup. unfold Plus at 1.
  rewrite !exec_Seq, exec_Chr. cbn [rest cap1].
  destruct s as [|c s]; [done|]. cbn [dropWhile] in Hs.
  destruct (isDigit c); [|done].
  pose proof (length_dropWhile isDigit s) as Hlen.
  apply (f_equal length) in Hs. cbn in Hs. lia.
Qed.

Lemma captured_group d s :
  take (length (d :: s) - length (afterTail s)) (d :: s) = d :: groupTail s.
Proof.
  rewrite <- (group_split s) at 1 3. cbn [length].
  rewrite length_app.
  replace (S (length (groupTail s) + length (afterTail s))
           - length (afterTail s))%nat with (S (length (groupTail s)))
    by lia.
  cbn [take]. f_equal. by rewrite take_app_length.
Qed.

End PricePattern.

Section PriceSearch.
Implicit Types (s t pre line : jsstring) (pv : option char) (d c : char).

Lemma whiteSpace_not_digit c : isWhiteSpace c = true → isDigit c = false.
Proof.
  unfold isWhiteSpace, isDigit. intros H.
  destruct (48 <=? c) eqn:E1, (c <=? 57) eqn:E2; try done.
  apply N.leb_le in E1, E2.
  repeat (apply orb_prop in H as [H|H]);
    repeat match goal with
      | H : _ && _ = true |- _ => apply andb_prop in H as [? ?]
      | H : (_ <=? _) = true |- _ => apply N.leb_le in H
      | H : (_ =? _) = true |- _ => apply N.eqb_eq in H
      end; lia.
Qed.

Lemma rupee_not_digit d : isDigit d = true → (8377 =? d) = false.
Proof.
  unfold isDigit. intros [_ H]%andb_prop. apply N.leb_le in H.
  apply N.eqb_neq. lia.
Qed.

Lemma not_at_digit c s : isDigit c = false → dropWhile isDigit (c :: s) = c :: s.
Proof. intros H. cbn. by rewrite H. Qed.

(** The group, with the continuation of [search]. *)
Lemma group_at_digit pv d s cap :
  isDigit d = true →
  ∃ pv1,
    exec (Group priceGroup) (MState pv (d :: s) cap) Some
    = Some (MState pv1 (afterTail s) (Some (d :: groupTail s))).
Proof.
  intros Hd. rewrite exec_Group.
  edestruct (priceGroup_at_digit (A:=mstate)) as [pv1 ->]; [|done|].
  - intros st. cbn beta. eauto.
  - exists pv1. cbn [rest prev]. by rewrite captured_group.
Qed.

Lemma group_not_at_digit pv s cap :
  dropWhile isDigit s = s →
  exec (Group priceGroup) (MState pv s cap) Some = None.
Proof. intros Hs. rewrite exec_Group. by apply priceGroup_not_at_digit. Qed.

Lemma skip_whiteSpace pv t :
  ∃ pv1,
    exec (Seq (Star (Chr isWhiteSpace)) (Group priceGroup))
      (MState pv t None) Some
    = exec (Group priceGroup) (MState pv1 (dropWhile isWhiteSpace t) None)
        Some.
Proof.
  rewrite exec_Seq, exec_Star. cbn [rest].
  apply (star_class_longest isWhiteSpace); [done|].
  intros pv1 c s1 Hc. apply group_not_at_digit, not_at_digit.
  by apply whiteSpace_not_digit.
Qed.

Lemma dropWhile_before_digit pre d s :
  digitFree pre = true → isDigit d = true →
  ∃ pre2,
    dropWhile isWhiteSpace (pre ++ d :: s) = pre2 ++ d :: s
    ∧ digitFree pre2 = true ∧ (pre = [] → pre2 = []).
Proof.
  intros Hpre Hd. induction pre as [|c pre IH].
  - exists []. cbn. destruct (isWhiteSpace d) eqn:E; [|done].
    apply whiteSpace_not_digit in E. congruence.
  - cbn in Hpre. apply andb_prop in Hpre as [Hc Hpre]. cbn [app dropWhile].
    destruct (isWhiteSpace c).
    + destruct (IH Hpre) as (pre2 & -> & H2 & _). by exists pre2.
    + exists (c :: pre). cbn. by rewrite Hc, Hpre.
Qed.

(** What one attempt of the pattern can give at a position that is before
    the first digit [d] of the input, or at it: no match, or a match whose
    group is the digit group that starts at [d]. *)
Lemma attempt_after_whiteSpace pre d s pv :
  digitFree pre = true → isDigit d = true →
  (exec (Seq (Star (Chr isWhiteSpace)) (Group priceGroup))
     (MState pv (pre ++ d :: s) None) Some = None ∧ pre ≠ [])
  ∨ ∃ st1,
      exec (Seq (Star (Chr isWhiteSpace)) (Group priceGroup))
        (MState pv (pre ++ d :: s) None) Some = Some st1
      ∧ cap1 st1 = Some (d :: groupTail s).
Proof.
  intros Hpre Hd.
  destruct (skip_whiteSpace pv (pre ++ d :: s)) as [pv1 ->].
  destruct (dropWhile_before_digit pre d s Hpre Hd) as (pre2 & -> & H2 & H3).
  destruct pre2 as [|c pre2]; cbn [app].
  - right. destruct (group_at_digit pv1 d s None Hd) as [pv2 ->]. eauto.
  - left. cbn in H2. apply andb_prop in H2 as [Hc _].
    apply negb_true_iff in Hc. split.
    + apply group_not_at_digit. by apply (not_at_digit c).
    + intros ->. by specialize (H3 eq_refl).
Qed.

Lemma attempt_at_position pre d s pv :
  digitFree pre = true → isDigit d = true →
  (exec pricePattern (MState pv (pre ++ d :: s) None) Some = None ∧ pre ≠ [])
  ∨ ∃ st1,
      exec pricePattern (MState pv (pre ++ d :: s) None) Some = Some st1
      ∧ cap1 st1 = Some (d :: groupTail s).
Proof.
  intros Hpre Hd. unfold pricePattern, Opt, Lit.
  rewrite exec_Seq, exec_Alt, exec_Chr, exec_Eps. cbn [rest cap1].
  destruct pre as [|c pre]; cbn [app].
  - rewrite (rupee_not_digit d Hd).
    apply (attempt_after_whiteSpace [] d s pv); done.
  - cbn in Hpre. apply andb_prop in Hpre as [Hc Hpre].
    destruct (8377 =? c).
    + destruct (attempt_after_whiteSpace pre d s (Some c) Hpre Hd)
        as [[-> _]|(st1 & -> & Hcap)]; [|right; eauto].
      apply (attempt_after_whiteSpace (c :: pre) d s pv); [|done].
      cbn. by rewrite Hc, Hpre.
    + apply (attempt_after_whiteSpace (c :: pre) d s pv); [|done].
      cbn. by rewrite Hc, Hpre.
Qed.

(** The leftmost match has the digit group at the first digit as its
    group. *)
Lemma search_finds_first_digit pre d s : ∀ pv,
  digitFree pre = true → isDigit d = true →
  ∃ st1,
    search pricePattern pv (pre ++ d :: s) = Some st1
    ∧ cap1 st1 = Some (d :: groupTail s).
Proof.
  induction pre as [|c pre IH]; intros pv Hpre Hd.
  - destruct (attempt_at_position [] d s pv Hpre Hd)
      as [[_ ?]|(st1 & Hst & Hcap)]; [done|].
    exists st1. cbn [app search] in *. by rewrite Hst.
  - destruct (attempt_at_position (c :: pre) d s pv Hpre Hd)
      as [[Hst _]|(st1 & Hst & Hcap)].
    + cbn [app search] in *. rewrite Hst. apply IH; [|done].
      cbn in Hpre. by apply andb_prop in Hpre as [_ ?].
    + exists st1. cbn [app search] in *. by rewrite Hst.
Qed.

(** Without a digit there is no match. *)
Lemma attempt_without_digit s pv :
  digitFree s = true → exec pricePattern (MState pv s None) Some = None.
Proof.
  intros Hs. unfold pricePattern, Opt, Lit.
  assert (Hws : ∀ t pv1, digitFree t = true →
    exec (Seq (Star (Chr isWhiteSpace)) (Group priceGroup))
      (MState pv1 t None) Some = None).
  { intros t pv1 Ht. destruct (skip_whiteSpace pv1 t) as [pv2 ->].
    apply group_not_at_digit. clear pv2.
    induction t as [|c t IH]; [done|]. cbn in Ht.
    apply andb_prop in Ht as [Hc Ht]. apply negb_true_iff in Hc.
    cbn [dropWhile]. destruct (isWhiteSpace c); [by apply IH|].
    by apply not_at_digit. }
  rewrite exec_Seq, exec_Alt, exec_Chr, exec_Eps. cbn [rest cap1].
  destruct s as [|c s]; [by apply Hws|].
  destruct (8377 =? c); [|by apply Hws].
  rewrite Hws; [by apply Hws|]. cbn in Hs. by apply andb_prop in Hs as [_ ?].
Qed.

Lemma search_without_digit s : ∀ pv,
  digitFree s = true → search pricePattern pv s = None.
Proof.
  induction s as [|c s IH]; intros pv Hs; cbn [search];
    rewrite attempt_without_digit by done; [done|].
  apply IH. cbn in Hs. by apply andb_prop in Hs as [_ ?].
Qed.

Lemma split_at_first_digit line :
  ∃ pre,
    line = pre ++ dropWhile (λ c, negb (isDigit c)) line
    ∧ digitFree pre = true.
Proof.
  induction line as [|c line (pre & IH & Hpre)]; [by exists []|].
  cbn [dropWhile]. destruct (negb (isDigit c)) eqn:E.
  - exists (c :: pre). unfold digitFree in *. cbn [forallb app].
    rewrite E, Hpre. by rewrite <- IH.
  - by exists [].
Qed.

Lemma removeFirst_absent c s : c ∉ s → removeFirst c s = s.
Proof.
  induction s as [|d s IH]; [done|]. intros [Hne Hs]%not_elem_of_cons.
  cbn. destruct (d =? c) eqn:E; [apply N.eqb_eq in E; congruence|].
  by rewrite IH.
Qed.

(** The group that the price pattern captures is the first digit group of
    the line. *)
Lemma match1_pricePattern line :
  match1 pricePattern line = firstDigitGroup line.
Proof.
  unfold match1, firstDigitGroup.
  destruct (split_at_first_digit line) as (pre & Hline & Hpre).
  destruct (dropWhile (λ c, negb (isDigit c)) line) as [|d s] eqn:E.
  - rewrite app_nil_r in Hline. subst pre.
    by rewrite search_without_digit.
  - apply dropWhile_head in E as Hd. apply negb_false_iff in Hd.
    rewrite Hline at 1.
    destruct (search_finds_first_digit pre d s None Hpre Hd)
      as (st1 & -> & Hcap).
    exact Hcap.
Qed.

End PriceSearch.

(** * Properties of the extraction *)

(** C10.  Price extraction does not need the rupee sign: for every line the
    group that the pattern captures is the first maximal digit group of the
    line, and the price is that group after [replace(',', '')].  What
    comes before the first digit, a rupee sign or anything else, does not
    matter, so a leading number that is not a price becomes the price. *)
Theorem price_is_first_digit_group (line : jsstring) :
  match1 pricePattern line = firstDigitGroup line
  ∧ extractPrice line
    = match firstDigitGroup line with
      | Some group1 => removeFirst 44 group1
      | None => []
      end
  ∧ (∀ group1, firstDigitGroup line = Some group1 → 44 ∉ group1 →
     extractPrice line = group1)
  ∧ extractPrice line
    = extractPrice (dropWhile (λ c, negb (isDigit c)) line)
  ∧ extractPrice (lit "32 waist jeans ₹999") = lit "32".
Proof.
  split; [apply match1_pricePattern|]. split; [|split; [|split]].
  - unfold extractPrice. by rewrite match1_pricePattern.
  - intros group1 Hgroup Hcomma. unfold extractPrice.
    rewrite match1_pricePattern, Hgroup. by apply removeFirst_absent.
  - unfold extractPrice. rewrite !match1_pricePattern. unfold firstDigitGroup.
    by rewrite dropWhile_idemp.
  - vm_compute. reflexivity.
Qed.

Lemma price_is_first_digit_group_witness :
  let line := lit "32 waist jeans ₹999" in
  firstDigitGroup line = Some (lit "32")
  ∧ (44 ∉ lit "32")
  ∧ extractPrice line = lit "32".
Proof.
  intros line.
  assert (Hgroup : firstDigitGroup line = Some (lit "32"))
    by (vm_compute; reflexivity).
  assert (Hcomma : 44 ∉ lit "32").
  { rewrite list_elem_of_In. vm_compute. intros [?|[?|[]]]; discriminate. }
  split; [exact Hgroup|]. split; [exact Hcomma|].
  exact (proj1 (proj2 (proj2 (price_is_first_digit_group line)))
           (lit "32") Hgroup Hcomma).
Defined.

(** C4, on the input that the specification names.  The pattern matches the group
    ["1,00,000"] and [replace(',', '')] removes its first comma only: the
    price is ["100,000"], not ["100000"], and the number read from it by
    [parseFloat] is 100. *)
Theorem price_keeps_later_commas :
  match1 pricePattern (lit "₹1,00,000") = Some (lit "1,00,000")
  ∧ extractPrice (lit "₹1,00,000") = lit "100,000"
  ∧ extractPrice (lit "₹1,00,000") ≠ lit "100000"
  ∧ parseFloat (extractPrice (lit "₹1,00,000")) = ofInteger 100.
Proof. repeat split; vm_compute; try reflexivity. discriminate. Qed.

(** C5.  When the row has neither [description] nor [desc], the description
    of the result is synthesized from the brand and the category of the
    input row, with the defaults "Quality" and "product"; the values that
    the same pass extracts later are not used.  For the row [{}] the
    description starts with "Premium Quality product" whatever the raw
    line is, also for a raw line from which "Nike" and "Shirt" are
    extracted. *)
Theorem description_uses_input_row (rawInfo : jsstring) (row : CatalogRow) :
  falsy (row !! lit "description") = true →
  falsy (row !! lit "desc") = true →
  (∃ more,
     enrichFields rawInfo row !! lit "description"
     = Some (lit "Premium "
             ++ str (row !! lit "brand" ||| Some (lit "Quality"))
             ++ lit " "
             ++ str (row !! lit "category" ||| Some (lit "product"))
             ++ more))
  ∧ (row = ∅ →
     enrichFields rawInfo row !! lit "description"
     = Some (lit "Premium Quality product" ++ lit ". " ++ slice0 200 rawInfo)).
Proof.
  intros Hdescription Hdesc. rewrite enrichFields_description, Hdescription.
  unfold generateDescription.
  assert (Hnone : str (row !! lit "description" ||| row !! lit "desc"
                       ||| Some []) = []).
  { unfold or. by rewrite Hdescription, Hdesc. }
  rewrite Hnone. cbn [nonEmpty]. split.
  - destruct (nonEmpty _), (nonEmpty _); eexists; f_equal;
      rewrite <- !app_assoc; reflexivity.
  - intros ->. rewrite !lookup_empty. reflexivity.
Qed.

Lemma description_uses_input_row_witness :
  let rawInfo := lit "Nike T-Shirt" in
  let row : CatalogRow := ∅ in
  falsy (row !! lit "description") = true
  ∧ falsy (row !! lit "desc") = true
  ∧ enrichFields rawInfo row !! lit "brand" = Some (lit "Nike")
  ∧ enrichFields rawInfo row !! lit "category" = Some (lit "Shirt")
  ∧ (∃ more,
       enrichFields rawInfo row !! lit "description"
       = Some (lit "Premium "
               ++ str (row !! lit "brand" ||| Some (lit "Quality"))
               ++ lit " "
               ++ str (row !! lit "category" ||| Some (lit "product"))
               ++ more))
  ∧ (row = ∅ →
     enrichFields rawInfo row !! lit "description"
     = Some (lit "Premium Quality product" ++ lit ". "
             ++ slice0 200 rawInfo)).
Proof.
  intros rawInfo row. split; [reflexivity|]. split; [reflexivity|].
  split; [vm_compute; reflexivity|]. split; [vm_compute; reflexivity|].
  apply description_uses_input_row; reflexivity.
Defined.

(** * The platform fields *)

Section PlatformFields.
Implicit Types (k j v x p rawInfo : jsstring) (er row : CatalogRow).

Lemma decide_not_elem_of j (l : list jsstring) :
  bool_decide (j ∉ l) = true → j ∉ l.
Proof. apply bool_decide_eq_true_1. Qed.

Lemma lookup_cond_insert_ne (c : bool) k v er j :
  k ≠ j → (if c then <[k:=v]> er else er) !! j = er !! j.
Proof. intros Hne. destruct c; [|done]. by rewrite lookup_insert_ne. Qed.

Lemma suffix_neq p (a b : jsstring) : a ≠ b → p ++ a ≠ p ++ b.
Proof. intros Hne Heq. by apply app_inv_head in Heq. Qed.

Lemma platformFields_title rawInfo er p :
  platformFields rawInfo er p !! (p ++ lit "_title")
  = if falsy (er !! (p ++ lit "_title"))
    then Some (generatePlatformTitle p er rawInfo)
    else er !! (p ++ lit "_title").
Proof.
  unfold platformFields. cbv zeta.
  rewrite lookup_assign_ne by (apply suffix_neq; key_neq).
  rewrite lookup_assign_ne by (apply suffix_neq; key_neq).
  apply lookup_assign_eq.
Qed.

(** The keywords are generated from a row that differs from the row before
    the platform only in the title and the description of the platform. *)
Lemma platformFields_keywords rawInfo er p :
  ∃ er1,
    (∀ j, j ∉ platformKeys p → er1 !! j = er !! j)
    ∧ platformFields rawInfo er p !! (p ++ lit "_keywords")
      = if falsy (er !! (p ++ lit "_keywords"))
        then Some (generateKeywords p er1 rawInfo)
        else er !! (p ++ lit "_keywords").
Proof.
  unfold platformFields. cbv zeta. eexists. split; [|].
  2: { rewrite lookup_assign_eq.
       rewrite !(lookup_assign_ne _ (p ++ lit "_keywords"))
         by (apply suffix_neq; key_neq).
       reflexivity. }
  intros j Hj. unfold platformKeys in Hj.
  apply not_elem_of_cons in Hj as [H1 Hj].
  apply not_elem_of_cons in Hj as [H2 _].
  by rewrite !lookup_assign_ne.
Qed.

Lemma generateKeywords_without_attributes p er rawInfo :
  falsy (er !! lit "brand") = true →
  falsy (er !! lit "category") = true →
  falsy (er !! lit "color") = true →
  falsy (er !! lit "material") = true →
  generateKeywords p er rawInfo
  = lit "quality, premium, best, latest, trending".
Proof.
  intros Hb Hc Hl Hm. unfold generateKeywords.
  assert (Hempty : ∀ o, falsy o = true → str (o ||| Some []) = []).
  { intros o Ho. unfold or. by rewrite Ho. }
  rewrite !Hempty by done. reflexivity.
Qed.

Lemma generatePlatformTitle_without_attributes p er rawInfo :
  falsy (er !! lit "brand") = true →
  falsy (er !! lit "color") = true →
  falsy (er !! lit "size") = true →
  generatePlatformTitle p er rawInfo
  = generatePlatformTitle p
      {[ lit "product_title" :=
           str (er !! lit "product_title" ||| er !! lit "title"
                ||| Some (lit "Product")) ]}
      rawInfo.
Proof.
  intros Hb Hl Hs. unfold generatePlatformTitle.
  assert (Hempty : ∀ o, falsy o = true → str (o ||| Some []) = []).
  { intros o Ho. unfold or. by rewrite Ho. }
  rewrite !(Hempty (er !! _)) by done.
  rewrite lookup_singleton_eq.
  rewrite !lookup_singleton_ne by key_neq.
  rewrite !(Hempty None) by done.
  assert (Hbase : ∀ o1 o2 : option jsstring,
    str (Some (str (o1 ||| o2 ||| Some (lit "Product"))) ||| None
         ||| Some (lit "Product"))
    = str (o1 ||| o2 ||| Some (lit "Product"))).
  { intros [[|c1 v1]|] [[|c2 v2]|]; reflexivity. }
  by rewrite Hbase.
Qed.

End PlatformFields.

(** Membership of a literal key in the keys of a literal platform. *)
Ltac key_notin := apply decide_not_elem_of; vm_compute; reflexivity.

(** Moves the lookups of literal keys in the goal down to the input row,
    past the steps that assign other keys. *)
Ltac read :=
  repeat match goal with
    | |- context [assignIfEmpty ?k ?x ?er !! ?j] =>
        rewrite (lookup_assign_ne k j x er) by key_neq
    | |- context [platformFields ?r ?er ?p !! ?j] =>
        rewrite (platformFields_frame r er p j) by key_notin
    | |- context [(if ?c then <[?k:=?v]> ?m else ?m) !! ?j] =>
        rewrite (lookup_cond_insert_ne c k v m j) by key_neq
    | |- context [fold_left (platformFields ?r) platforms ?er !! ?j] =>
        rewrite (platforms_frame r platforms er j)
          by (apply not_platform_key; vm_compute; reflexivity)
    end.

Section Attributes.
Implicit Types (rawInfo : jsstring) (row : CatalogRow).

Lemma enrichFields_brand rawInfo row :
  enrichFields rawInfo row !! lit "brand"
  = if falsy (row !! lit "brand") then Some (extractBrand rawInfo row)
    else row !! lit "brand".
Proof.
  unfold enrichFields. cbv zeta. read. rewrite lookup_assign_eq. by read.
Qed.

Lemma enrichFields_category rawInfo row :
  enrichFields rawInfo row !! lit "category"
  = if falsy (row !! lit "category") then Some (extractCategory rawInfo row)
    else row !! lit "category".
Proof.
  unfold enrichFields. cbv zeta. read. rewrite lookup_assign_eq. by read.
Qed.

Lemma enrichFields_color rawInfo row :
  enrichFields rawInfo row !! lit "color"
  = if falsy (row !! lit "color") then Some (extractColor rawInfo row)
    else row !! lit "color".
Proof.
  unfold enrichFields. cbv zeta. read. rewrite lookup_assign_eq. by read.
Qed.

Lemma enrichFields_size rawInfo row :
  enrichFields rawInfo row !! lit "size"
  = if falsy (row !! lit "size") then Some (extractSize rawInfo row)
    else row !! lit "size".
Proof.
  unfold enrichFields. cbv zeta. read. rewrite lookup_assign_eq. by read.
Qed.

Lemma enrichFields_material rawInfo row :
  enrichFields rawInfo row !! lit "material"
  = if falsy (row !! lit "material") then Some (extractMaterial rawInfo row)
    else row !! lit "material".
Proof.
  unfold enrichFields. cbv zeta. read. rewrite lookup_assign_eq. by read.
Qed.

End Attributes.

(** The fields of a literal platform, for a row without attributes. *)
Ltac platform_field :=
  unfold enrichFields; cbv zeta; read; unfold platforms; cbn [fold_left];
  read.

Section PlatformOrder.
Implicit Types (p rawInfo : jsstring) (row : CatalogRow).

Lemma keywords_before_attributes rawInfo row p :
  falsy (row !! lit "brand") = true →
  falsy (row !! lit "category") = true →
  falsy (row !! lit "color") = true →
  falsy (row !! lit "material") = true →
  p ∈ platforms →
  falsy (row !! (p ++ lit "_keywords")) = true →
  enrichFields rawInfo row !! (p ++ lit "_keywords")
  = Some (lit "quality, premium, best, latest, trending").
Proof.
  intros Hb Hc Hl Hm Hp. unfold platforms in Hp.
  repeat (apply elem_of_cons in Hp as [->|Hp]);
    try (by apply elem_of_nil in Hp);
    intros Hf; platform_field;
    match goal with
    | |- context [platformFields ?r ?er ?q !! _] =>
        destruct (platformFields_keywords r er q) as (er1 & Hframe & ->)
    end;
    read; rewrite Hf; f_equal;
    apply generateKeywords_without_attributes;
    rewrite Hframe by key_notin; by read.
Qed.

Lemma title_before_attributes rawInfo row p :
  falsy (row !! lit "brand") = true →
  falsy (row !! lit "color") = true →
  falsy (row !! lit "size") = true →
  p ∈ platforms →
  falsy (row !! (p ++ lit "_title")) = true →
  enrichFields rawInfo row !! (p ++ lit "_title")
  = Some (generatePlatformTitle p
            {[ lit "product_title" :=
                 str (enrichFields rawInfo row !! lit "product_title"
                      ||| row !! lit "title" ||| Some (lit "Product")) ]}
            rawInfo).
Proof.
  intros Hb Hl Hs Hp. rewrite enrichFields_product_title.
  unfold platforms in Hp.
  repeat (apply elem_of_cons in Hp as [->|Hp]);
    try (by apply elem_of_nil in Hp);
    intros Hf; platform_field;
    rewrite platformFields_title; read; rewrite Hf; f_equal;
    rewrite generatePlatformTitle_without_attributes by (by read);
    read; do 4 f_equal;
    (destruct (falsy (row !! lit "product_title") && nonEmpty rawInfo);
     [by rewrite lookup_insert_eq|done]).
Qed.

End PlatformOrder.

(** * The marked price *)

Section Printing.
Implicit Types (s : jsstring) (n : N) (d : Decimal.uint).

Lemma uintDigits_digits d : forallb isDigit (uintDigits d) = true.
Proof. induction d; cbn [uintDigits forallb]; by rewrite ?IHd. Qed.

Lemma digitsValue_acc d : ∀ acc : positive,
  fold_left (λ a c, 10 * a + (c - 48)) (uintDigits d) (Npos acc)
  = Npos (Pos.of_uint_acc d acc).
Proof.
  induction d; intros acc; cbn [uintDigits fold_left Pos.of_uint_acc];
    [done|..];
    match goal with
    | |- fold_left _ _ ?a = _ =>
        match goal with
        | |- _ = Npos (Pos.of_uint_acc _ ?b) =>
            replace a with (Npos b) by lia
        end
    end; apply IHd.
Qed.

Lemma digitsValue_uint d : digitsValue (uintDigits d) = N.of_uint d.
Proof.
  unfold digitsValue, N.of_uint.
  induction d; cbn [uintDigits fold_left Pos.of_uint]; [done|exact IHd|..];
    match goal with
    | |- fold_left _ _ ?a = Npos (Pos.of_uint_acc _ ?b) =>
        change a with (Npos b)
    end; apply digitsValue_acc.
Qed.

(** The decimal digits of a number denote it. *)
Lemma digitsValue_decimal n : digitsValue (decimal n) = n.
Proof.
  unfold decimal. rewrite digitsValue_uint. apply DecimalN.Unsigned.of_to.
Qed.

Lemma decimal_digits n : forallb isDigit (decimal n) = true.
Proof. apply uintDigits_digits. Qed.

Lemma digitsValue_zeros (k : nat) s :
  digitsValue (replicate k 48 ++ s) = digitsValue s.
Proof. unfold digitsValue. induction k as [|k IH]; [done|]. exact IH. Qed.

Lemma digit_not_point (c : char) : isDigit c = true → negb (c =? 46) = true.
Proof.
  unfold isDigit. intros [H _]%andb_prop. apply N.leb_le in H.
  apply negb_true_iff, N.eqb_neq. lia.
Qed.

Lemma filter_digits s :
  forallb isDigit s = true → List.filter (λ c, negb (c =? 46)) s = s.
Proof.
  induction s as [|c s IH]; [done|]. cbn. intros [Hc Hs]%andb_prop.
  by rewrite (digit_not_point c Hc), IH.
Qed.

(** Digits with a point before the last two of them have the shape of the
    marked price and denote the number of the digits. *)
Lemma point_then_two (w : jsstring) (d1 d2 : char) :
  w ≠ [] → forallb isDigit w = true →
  isDigit d1 = true → isDigit d2 = true →
  twoDecimals (w ++ [46; d1; d2]) = true
  ∧ hundredths (w ++ [46; d1; d2]) = digitsValue (w ++ [d1; d2]).
Proof.
  intros Hne Hw H1 H2. split.
  - unfold twoDecimals. rewrite reverse_app.
    change (reverse [46; d1; d2]) with [d2; d1; 46]. cbn [app].
    rewrite H1, H2, forallb_reverse, Hw. cbn [andb N.eqb Pos.eqb].
    destruct w as [|c w]; [done|]. rewrite reverse_cons.
    by destruct (reverse w).
  - unfold hundredths. rewrite List.filter_app, (filter_digits _ Hw).
    cbn [List.filter N.eqb Pos.eqb negb].
    by rewrite (digit_not_point d1 H1), (digit_not_point d2 H2).
Qed.

Lemma point_before_last_two s :
  forallb isDigit s = true → (3 ≤ length s)%nat →
  twoDecimals (take (length s - 2) s ++ 46 :: drop (length s - 2) s) = true
  ∧ hundredths (take (length s - 2) s ++ 46 :: drop (length s - 2) s)
    = digitsValue s.
Proof.
  intros Hs Hlen.
  pose proof (take_drop (length s - 2) s) as Hsplit.
  assert (Hwlen : length (take (length s - 2) s) = (length s - 2)%nat)
    by (rewrite length_take; lia).
  assert (Hflen : length (drop (length s - 2) s) = 2%nat)
    by (rewrite length_drop; lia).
  destruct (take (length s - 2) s) as [|c w]; [cbn in Hwlen; lia|].
  destruct (drop (length s - 2) s) as [|d1 [|d2 [|? ?]]]; try done.
  rewrite <- Hsplit in Hs |- *. rewrite forallb_app in Hs.
  apply andb_prop in Hs as [Hw Hf]. cbn in Hf.
  apply andb_prop in Hf as [H1 H2]. apply andb_prop in H2 as [H2 _].
  by apply point_then_two.
Qed.

Lemma fixedDigits_two n :
  twoDecimals (fixedDigits 2 n) = true ∧ hundredths (fixedDigits 2 n) = n.
Proof.
  destruct (point_before_last_two
              (replicate (3 - length (decimal n)) 48 ++ decimal n))
    as [Hshape Hvalue].
  - rewrite forallb_app, decimal_digits, andb_true_r.
    by induction (3 - length (decimal n))%nat.
  - rewrite length_app, length_replicate. lia.
  - split; [exact Hshape|].
    rewrite digitsValue_zeros, digitsValue_decimal in Hvalue. exact Hvalue.
Qed.

(** The rounding of [toFixed]. *)
Lemma nearestScaled_nearest (f : nat) (m : positive) (e : Z) :
  isNearestScaled f m e (Z.of_N (nearestScaled f m e)).
Proof.
  unfold isNearestScaled, nearestScaled.
  destruct e as [|p|p].
  - rewrite Z2N.id by lia. lia.
  - rewrite Z2N.id by lia. lia.
  - set (v := (Z.pos m * 10 ^ Z.of_nat f)%Z).
    set (q := (2 ^ Z.pos p)%Z).
    assert (Hq : (0 < q)%Z) by (apply Z.pow_pos_nonneg; lia).
    assert (Hv : (0 < v)%Z).
    { apply Z.mul_pos_pos; [lia|]. apply Z.pow_pos_nonneg; lia. }
    replace (2 ^ (Z.pos p + 1))%Z with (2 * q)%Z
      by (unfold q; rewrite Z.pow_add_r by lia; lia).
    rewrite Z2N.id by (apply Z.div_pos; lia).
    replace (10 ^ Z.of_nat f * Z.pos m)%Z with v by (unfold v; lia).
    pose proof (Z.div_mod (2 * v + q) (2 * q) ltac:(lia)) as Hdiv.
    pose proof (Z.mod_pos_bound (2 * v + q) (2 * q) ltac:(lia)) as Hmod.
    lia.
Qed.

End Printing.

Section MarkedPrice.
Implicit Types (x : number) (text rawInfo : jsstring) (row : CatalogRow).

Lemma binary_round_aux_sign sx mx ex lx s m e :
  binary_round_aux prec emax sx mx ex lx = S754_finite s m e → s = sx.
Proof.
  unfold binary_round_aux.
  destruct (shr_fexp prec emax mx ex lx) as [mrs1 e1].
  destruct (shr_fexp prec emax _ e1 loc_Exact) as [mrs2 e2].
  destruct (shr_m mrs2); [done| |done].
  destruct (e2 <=? emax - prec)%Z; [|done]. by intros [= -> _ _].
Qed.

Lemma markup_value : markup = S754_finite false 5629499534213120 (-52).
Proof. vm_compute. reflexivity. Qed.

(** The product of a positive price and the markup is not negative. *)
Lemma mul_markup_sign x s m e :
  gt x (S754_zero false) = true →
  mul x markup = S754_finite s m e → s = false.
Proof.
  rewrite markup_value. unfold gt, mul.
  destruct x as [sx|sx| |sx mx ex]; try done; cbn [SFmul].
  destruct sx; [done|]. intros _ H. by apply binary_round_aux_sign in H.
Qed.

(** [parseFloat(text) || 0] is positive exactly when [parseFloat(text)]
    is. *)
Lemma mrpOf_unfold text :
  mrpOf text
  = if gt (parseFloat text) (S754_zero false)
    then toFixed 2 (mul (parseFloat text) markup)
    else [].
Proof. unfold mrpOf. by destruct (parseFloat text). Qed.

End MarkedPrice.

(** C6, as the code has it.  For every row whose [mrp] is absent or empty:
    when the price of the result does not parse as a positive number, the
    [mrp] of the result is the empty string; when it parses as a positive
    number whose product with 1.25 (a Number [m * 2^e]) is below [10^21],
    the [mrp] is digits, a point and exactly two digits, and the number of
    hundredths that it denotes is the integer nearest to
    [100 * m * 2^e]. *)
Theorem mrp_from_price (rawInfo : jsstring) (row : CatalogRow) :
  falsy (row !! lit "mrp") = true →
  let price := parseFloat (str (enrichFields rawInfo row !! lit "price")) in
  ∃ mrp,
    enrichFields rawInfo row !! lit "mrp" = Some mrp
    ∧ (gt price (S754_zero false) = false → mrp = [])
    ∧ (gt price (S754_zero false) = true →
       ∀ s m e, mul price markup = S754_finite s m e →
         belowLimit m e = true →
         s = false ∧ twoDecimals mrp = true
         ∧ isNearestScaled 2 m e (Z.of_N (hundredths mrp))).
Proof.
  intros Hmrp price. subst price. rewrite enrichFields_mrp, Hmrp. eexists.
  split; [reflexivity|]. rewrite mrpOf_unfold. split.
  - by intros ->.
  - intros Hgt s m e Hmul Hlimit. rewrite Hgt, Hmul.
    apply mul_markup_sign in Hmul as ->; [|done]. split; [done|].
    unfold toFixed. rewrite Hlimit. cbn [app].
    destruct (fixedDigits_two (nearestScaled 2 m e)) as [Hshape Hvalue].
    split; [done|]. rewrite Hvalue. apply nearestScaled_nearest.
Qed.

Lemma mrp_from_price_witness :
  let rawInfo := lit "Nike Blue T-Shirt M Cotton ₹1200" in
  let row : CatalogRow := ∅ in
  let price := parseFloat (str (enrichFields rawInfo row !! lit "price")) in
  falsy (row !! lit "mrp") = true
  ∧ gt price (S754_zero false) = true
  ∧ mul price markup = S754_finite false 6597069766656000 (-42)
  ∧ belowLimit 6597069766656000 (-42) = true
  ∧ enrichFields rawInfo row !! lit "mrp" = Some (lit "1500.00")
  ∧ ∃ mrp,
      enrichFields rawInfo row !! lit "mrp" = Some mrp
      ∧ (gt price (S754_zero false) = false → mrp = [])
      ∧ (gt price (S754_zero false) = true →
         ∀ s m e, mul price markup = S754_finite s m e →
           belowLimit m e = true →
           s = false ∧ twoDecimals mrp = true
           ∧ isNearestScaled 2 m e (Z.of_N (hundredths mrp))).
Proof.
  intros rawInfo row price.
  split; [reflexivity|]. split; [vm_compute; reflexivity|].
  split; [vm_compute; reflexivity|]. split; [vm_compute; reflexivity|].
  split; [vm_compute; reflexivity|].
  apply mrp_from_price. reflexivity.
Defined.

(** C6 as stated fails: the raw line ["₹2000000000000000000000"] gives the
    price ["2000000000000000000000"], which parses as the positive number
    [2 * 10^21], and the [mrp] is ["2.5e+21"], which does not have two
    decimal places. *)
Lemma huge_price_has_exponent_mrp :
  let out := enrichFields (lit "₹2000000000000000000000") ∅ in
  out !! lit "price" = Some (lit "2000000000000000000000")
  ∧ parseFloat (lit "2000000000000000000000")
    = ofInteger 2000000000000000000000
  ∧ gt (parseFloat (lit "2000000000000000000000")) (S754_zero false) = true
  ∧ out !! lit "mrp" = Some (lit "2.5e+21")
  ∧ twoDecimals (lit "2.5e+21") = false.
Proof. repeat split; vm_compute; reflexivity. Qed.

(** C9.  The platform fields are computed before the attributes are
    extracted.  For a row without brand, category, color, size and
    material, the keywords of every platform are the five fixed words and
    the title of every platform is the one generated from a row that has
    the base title and nothing else, while the attributes of the result
    are the ones extracted from the raw line.  For the catalog [[{}]] and
    the text "Nike Blue T-Shirt M Cotton ₹1200" the keywords contain
    neither "Nike" nor "Blue", although the brand of the result is "Nike"
    and its color is "Blue". *)
Theorem platform_fields_precede_attributes :
  (∀ (rawInfo : jsstring) (row : CatalogRow),
     falsy (row !! lit "brand") = true →
     falsy (row !! lit "category") = true →
     falsy (row !! lit "color") = true →
     falsy (row !! lit "size") = true →
     falsy (row !! lit "material") = true →
     (∀ p, p ∈ platforms →
        (falsy (row !! (p ++ lit "_keywords")) = true →
         enrichFields rawInfo row !! (p ++ lit "_keywords")
         = Some (lit "quality, premium, best, latest, trending"))
        ∧ (falsy (row !! (p ++ lit "_title")) = true →
           enrichFields rawInfo row !! (p ++ lit "_title")
           = Some (generatePlatformTitle p
                     {[ lit "product_title" :=
                          str (enrichFields rawInfo row !! lit "product_title"
                               ||| row !! lit "title"
                               ||| Some (lit "Product")) ]}
                     rawInfo)))
     ∧ enrichFields rawInfo row !! lit "brand"
       = Some (extractBrand rawInfo row)
     ∧ enrichFields rawInfo row !! lit "category"
       = Some (extractCategory rawInfo row)
     ∧ enrichFields rawInfo row !! lit "color"
       = Some (extractColor rawInfo row)
     ∧ enrichFields rawInfo row !! lit "size"
       = Some (extractSize rawInfo row)
     ∧ enrichFields rawInfo row !! lit "material"
       = Some (extractMaterial rawInfo row))
  ∧ let out := enrichFields (lit "Nike Blue T-Shirt M Cotton ₹1200") ∅ in
    POST {| catalog := Some [∅];
            rawData := Some (lit "Nike Blue T-Shirt M Cotton ₹1200") |}
    = Enriched [out]
    ∧ Forall (λ p, out !! (p ++ lit "_keywords")
                   = Some (lit "quality, premium, best, latest, trending"))
        platforms
    ∧ includes (lit "Nike") (lit "quality, premium, best, latest, trending")
      = false
    ∧ includes (lit "Blue") (lit "quality, premium, best, latest, trending")
      = false
    ∧ out !! lit "brand" = Some (lit "Nike")
    ∧ out !! lit "color" = Some (lit "Blue").
Proof.
  split.
  - intros rawInfo row Hb Hc Hl Hs Hm. split; [|repeat split].
    + intros p Hp. split.
      * by apply keywords_before_attributes.
      * by apply title_before_attributes.
    + by rewrite enrichFields_brand, Hb.
    + by rewrite enrichFields_category, Hc.
    + by rewrite enrichFields_color, Hl.
    + by rewrite enrichFields_size, Hs.
    + by rewrite enrichFields_material, Hm.
  - intros out. subst out. split; [vm_compute; reflexivity|].
    split; [repeat constructor; vm_compute; reflexivity|].
    repeat split; vm_compute; reflexivity.
Qed.

Lemma platform_fields_precede_attributes_witness :
  let rawInfo := lit "Nike Blue T-Shirt M Cotton ₹1200" in
  let row : CatalogRow := ∅ in
  falsy (row !! lit "brand") = true
  ∧ falsy (row !! lit "category") = true
  ∧ falsy (row !! lit "color") = true
  ∧ falsy (row !! lit "size") = true
  ∧ falsy (row !! lit "material") = true
  ∧ lit "amazon" ∈ platforms
  ∧ falsy (row !! (lit "amazon" ++ lit "_keywords")) = true
  ∧ falsy (row !! (lit "amazon" ++ lit "_title")) = true
  ∧ enrichFields rawInfo row !! (lit "amazon" ++ lit "_keywords")
    = Some (lit "quality, premium, best, latest, trending")
  ∧ enrichFields rawInfo row !! (lit "amazon" ++ lit "_title")
    = Some (lit "Nike Blue T-Shirt M Cotton ₹1200")
  ∧ enrichFields rawInfo row !! lit "brand" = Some (lit "Nike").
Proof.
  intros rawInfo row.
  assert (Hin : lit "amazon" ∈ platforms) by (unfold platforms; left).
  destruct (proj1 platform_fields_precede_attributes rawInfo row
              eq_refl eq_refl eq_refl eq_refl eq_refl)
    as (Hplatform & Hbrand & _).
  destruct (Hplatform (lit "amazon") Hin) as [Hkeywords Htitle].
  do 5 (split; [reflexivity|]). split; [exact Hin|].
  do 2 (split; [reflexivity|]).
  split; [exact (Hkeywords eq_refl)|].
  split; [rewrite (Htitle eq_refl); vm_compute; reflexivity|].
  rewrite Hbrand. vm_compute. reflexivity.
Defined.


(** * Further properties of the route *)

Section Validation.
Implicit Types (request : EnrichRequest).

(** The handler has three outcomes. *)
Lemma POST_cases request :
  (POST request = Error 400 (lit "Invalid catalog data")
   ∧ (catalog request = None ∨ catalog request = Some []))
  ∨ (POST request = Error 400 (lit "Raw data is required")
     ∧ (∃ rows, catalog request = Some rows ∧ rows ≠ [])
     ∧ (rawData request = None ∨ rawData request = Some []))
  ∨ (∃ rows text,
       catalog request = Some rows ∧ rows ≠ []
       ∧ rawData request = Some text ∧ text ≠ []
       ∧ POST request = Enriched (imap (enrichRow (rawLinesOf text)) rows)).
Proof.
  destruct request as [[[|row rows]|] raw]; cbn [catalog rawData].
  - left. split; [reflexivity|by right].
  - right. destruct raw as [[|c text]|].
    + left. split; [reflexivity|]. split; [by exists (row :: rows)|by right].
    + right. exists (row :: rows), (c :: text).
      split; [reflexivity|]. split; [discriminate|].
      split; [reflexivity|]. split; [discriminate|]. reflexivity.
    + left. split; [reflexivity|]. split; [by exists (row :: rows)|by left].
  - left. split; [reflexivity|by left].
Qed.

End Validation.

(** X1.  The catalog is validated first: a request whose catalog is missing
    or empty is answered with 400 "Invalid catalog data" whatever its
    rawData is, no other request gets that answer, and for a request of
    the declared type (rows with string values, a string as rawData) an
    error answer of the handler always has the status 400. *)
Theorem catalog_validated_first (request : EnrichRequest) :
  (POST request = Error 400 (lit "Invalid catalog data")
   ↔ catalog request = None ∨ catalog request = Some [])
  ∧ (∀ code message, POST request = Error code message → code = 400%Z).
Proof.
  destruct (POST_cases request)
    as [[HP Hc]|[(HP & (rows & Hc & Hne) & _)|(rows & text & Hc & Hne & _ & _ & HP)]];
    rewrite HP; split;
    try (intros code message Hcode; by inversion Hcode).
  - by split.
  - split; [intros [= H]; vm_compute in H; discriminate H|].
    rewrite Hc. intros [H|H]; [discriminate H|].
    injection H as ->. by destruct Hne.
  - split; [discriminate|]. rewrite Hc. intros [H|H]; [discriminate H|].
    injection H as ->. by destruct Hne.
Qed.

Lemma catalog_validated_first_witness :
  let request := {| catalog := Some []; rawData := None |} in
  catalog request = Some []
  ∧ POST request = Error 400 (lit "Invalid catalog data").
Proof.
  intros request. split; [reflexivity|].
  apply (proj1 (catalog_validated_first request)). by right.
Defined.

Section OtherKeys.
Implicit Types (k rawInfo : jsstring) (row : CatalogRow).

Lemma enrichFields_keeps_key rawInfo row k :
  is_Some (row !! k) → is_Some (enrichFields rawInfo row !! k).
Proof.
  intros Hk. unfold enrichFields. cbv zeta.
  do 6 apply assign_is_Some. apply platforms_is_Some.
  do 3 apply assign_is_Some.
  destruct (falsy (row !! lit "product_title") && nonEmpty rawInfo); [|done].
  destruct (decide (lit "product_title" = k)) as [<-|Hne].
  - rewrite lookup_insert_eq. eauto.
  - by rewrite lookup_insert_ne.
Qed.

Lemma enrichFields_other_key rawInfo row k :
  k ∉ derivedKeys → enrichFields rawInfo row !! k = row !! k.
Proof.
  unfold derivedKeys. intros [Hcommon Hplatform]%not_elem_of_app.
  repeat match type of Hcommon with
    | _ ∉ _ :: _ => apply not_elem_of_cons in Hcommon as [? Hcommon]
    end.
  unfold enrichFields. cbv zeta.
  rewrite !lookup_assign_ne by done.
  rewrite platforms_frame by done.
  rewrite !lookup_assign_ne by done.
  by rewrite lookup_cond_insert_ne.
Qed.

End OtherKeys.

(** X2.  Enrichment touches the derived keys only: a key that is not one of
    them has the same lookup in the input row and in the output row, and
    no key of the input row is missing from the output row. *)
Theorem other_keys_untouched (rawInfo : jsstring) (row : CatalogRow)
  (k : jsstring) :
  (k ∉ derivedKeys → enrichFields rawInfo row !! k = row !! k)
  ∧ (is_Some (row !! k) → is_Some (enrichFields rawInfo row !! k)).
Proof.
  split; [apply enrichFields_other_key|apply enrichFields_keeps_key].
Qed.

Lemma other_keys_untouched_witness :
  let row : CatalogRow := {[ lit "sku" := lit "A-17" ]} in
  (lit "sku" ∉ derivedKeys)
  ∧ is_Some (row !! lit "sku")
  ∧ enrichFields (lit "Nike shoes") row !! lit "sku" = Some (lit "A-17").
Proof.
  intros row.
  assert (Hsku : lit "sku" ∉ derivedKeys)
    by (apply decide_not_elem_of; vm_compute; reflexivity).
  split; [exact Hsku|]. split; [by exists (lit "A-17")|].
  rewrite (proj1 (other_keys_untouched (lit "Nike shoes") row (lit "sku"))
             Hsku).
  apply lookup_singleton_eq.
Defined.

Section RawLinesShape.
Implicit Types (s cur line text : jsstring).

Lemma splitChar_pieces sep cur s :
  sep ∉ cur → Forall (λ line, sep ∉ line) (splitChar sep cur s).
Proof.
  revert cur. induction s as [|c s IH]; intros cur Hcur; cbn [splitChar].
  - by constructor.
  - destruct (c =? sep) eqn:E.
    + constructor; [done|]. apply IH, not_elem_of_nil.
    + apply IH. apply N.eqb_neq in E.
      rewrite elem_of_app, list_elem_of_singleton. by intros [?|?].
Qed.

Lemma splitChar_whole sep cur s :
  sep ∉ s → splitChar sep cur s = [cur ++ s].
Proof.
  revert cur. induction s as [|c s IH]; intros cur Hs; cbn [splitChar].
  - by rewrite app_nil_r.
  - apply not_elem_of_cons in Hs as [Hc Hs].
    destruct (c =? sep) eqn:E; [apply N.eqb_eq in E; congruence|].
    rewrite IH by done. by rewrite <- app_assoc.
Qed.

Lemma splitChar_all_blank sep cur s :
  isWhiteSpace sep = true →
  Forall (λ line, blank line = true) (splitChar sep cur s) →
  blank cur = true ∧ blank s = true.
Proof.
  intros Hsep. revert cur.
  induction s as [|c s IH]; intros cur Hall; cbn [splitChar] in Hall.
  - by apply Forall_cons in Hall as [? _].
  - destruct (c =? sep) eqn:E.
    + apply Forall_cons in Hall as [Hcur Hall].
      apply IH in Hall as [_ Hs]. apply N.eqb_eq in E as ->.
      split; [done|]. unfold blank in *. cbn. by rewrite Hsep, Hs.
    + apply IH in Hall as [Hcur Hs]. unfold blank in *.
      rewrite forallb_app in Hcur. apply andb_prop in Hcur as [Hcur Hc].
      cbn in Hc. apply andb_prop in Hc as [Hc _].
      split; [done|]. cbn. by rewrite Hc, Hs.
Qed.

Lemma rawLinesOf_nil_blank text : rawLinesOf text = [] → blank text = true.
Proof.
  unfold rawLinesOf, split. intros Hnil.
  eapply (splitChar_all_blank 10 []); [reflexivity|].
  apply Forall_forall. intros line Hin.
  destruct (nonEmpty (trim line)) eqn:E.
  - assert (Hfil : In line (List.filter (λ l, nonEmpty (trim l))
                              (splitChar 10 [] text))).
    { apply filter_In. split; [by apply list_elem_of_In|done]. }
    rewrite Hnil in Hfil. destruct Hfil.
  - apply trim_nil_iff. by destruct (trim line).
Qed.

End RawLinesShape.

(** X3.  The raw lines of a text contain no line feed and are not blank,
    and a text has no raw line exactly when it is blank. *)
Theorem raw_lines_shape (text : jsstring) :
  Forall (λ line, (10 ∉ line) ∧ blank line = false) (rawLinesOf text)
  ∧ (rawLinesOf text = [] ↔ blank text = true).
Proof.
  split; [|split; [apply rawLinesOf_nil_blank|apply rawLinesOf_blank]].
  unfold rawLinesOf, split. apply Forall_forall. intros line Hin.
  apply list_elem_of_In, filter_In in Hin as [Hin Hline]. split.
  - pose proof (splitChar_pieces 10 [] text (not_elem_of_nil _)) as Hall.
    rewrite Forall_forall in Hall. by apply Hall, list_elem_of_In.
  - destruct (blank line) eqn:E; [|done].
    apply trim_blank in E. by rewrite E in Hline.
Qed.

Lemma raw_lines_shape_witness :
  blank (lit "  ") = true ∧ rawLinesOf (lit "  ") = [].
Proof.
  split; [reflexivity|].
  apply (proj2 (proj2 (raw_lines_shape (lit "  ")))). reflexivity.
Defined.

(** X4.  A text of one line, that is a text without a line feed that is
    not blank, is the raw line of every row: the handler enriches each row
    of the catalog with the whole text. *)
Theorem single_line_for_every_row (rows : list CatalogRow)
  (text : jsstring) :
  rows ≠ [] → (10 ∉ text) → blank text = false →
  rawLinesOf text = [text]
  ∧ POST {| catalog := Some rows; rawData := Some text |}
    = Enriched (enrichFields text <$> rows).
Proof.
  intros Hrows Hline Hblank.
  assert (Htext : text ≠ []) by (by intros ->).
  assert (Hlines : rawLinesOf text = [text]).
  { unfold rawLinesOf, split. rewrite splitChar_whole by done.
    cbn [app List.filter]. destruct (nonEmpty (trim text)) eqn:E; [done|].
    assert (trim text = []) as Hb%trim_nil_iff by (by destruct (trim text)).
    congruence. }
  split; [done|]. rewrite POST_accepts by done. f_equal. rewrite Hlines.
  apply (imap_index_free (enrichRow [text]) (enrichFields text)).
  intros i row. unfold enrichRow. f_equal. unfold rawInfoAt.
  destruct text as [|c text]; [done|]. by destruct i.
Qed.

Lemma single_line_for_every_row_witness :
  let rows : list CatalogRow := [∅; ∅; ∅] in
  let text := lit "Puma Black Shoes 42 ₹2,499" in
  rows ≠ [] ∧ (10 ∉ text) ∧ blank text = false
  ∧ rawLinesOf text = [text]
  ∧ POST {| catalog := Some rows; rawData := Some text |}
    = Enriched (enrichFields text <$> rows).
Proof.
  intros rows text.
  assert (Hline : 10 ∉ text).
  { rewrite list_elem_of_In. vm_compute. intuition discriminate. }
  assert (Hblank : blank text = false) by (vm_compute; reflexivity).
  split; [discriminate|]. split; [exact Hline|]. split; [exact Hblank|].
  apply single_line_for_every_row; [discriminate|exact Hline|exact Hblank].
Defined.


Section Titles.
Implicit Types (s cur sep rawData : jsstring) (l : list jsstring)
  (row : CatalogRow).

Lemma join_cons sep (p : jsstring) l :
  l ≠ [] → join sep (p :: l) = p ++ sep ++ join sep l.
Proof. by destruct l. Qed.

Lemma splitRuns_first b cur s :
  ∃ more l, splitRuns b cur s = (cur ++ more) :: l.
Proof.
  revert b cur. induction s as [|c s IH]; intros b cur; cbn [splitRuns].
  - exists [], []. by rewrite app_nil_r.
  - destruct (isWhiteSpace c), b.
    + apply IH.
    + exists [], (splitRuns true [] s). by rewrite app_nil_r.
    + destruct (IH false (cur ++ [c])) as (more & l & ->).
      exists (c :: more), l. by rewrite <- app_assoc.
    + destruct (IH false (cur ++ [c])) as (more & l & ->).
      exists (c :: more), l. by rewrite <- app_assoc.
Qed.

Lemma splitRuns_not_nil b cur s : splitRuns b cur s ≠ [].
Proof. by destruct (splitRuns_first b cur s) as (more & l & ->). Qed.

(** [s.split(/\s+/).join(' ')] is [s.replace(/\s+/g, ' ')]. *)
Lemma join_splitRuns b cur s :
  join [32] (splitRuns b cur s) = cur ++ collapseRuns b s.
Proof.
  revert b cur.
  induction s as [|c s IH]; intros b cur; cbn [splitRuns collapseRuns].
  - cbn. by rewrite app_nil_r.
  - destruct (isWhiteSpace c), b.
    + apply IH.
    + rewrite join_cons by apply splitRuns_not_nil. by rewrite IH.
    + rewrite IH. by rewrite <- app_assoc.
    + rewrite IH. by rewrite <- app_assoc.
Qed.

Lemma join_take_prefix sep l : ∀ n : nat,
  join sep (take n l) `prefix_of` join sep l.
Proof.
  induction l as [|p l IH]; intros n; [by rewrite take_nil|].
  destruct n as [|n]; [apply prefix_nil|]. cbn [take].
  destruct l as [|q l]; [by rewrite take_nil|].
  destruct (take n (q :: l)) as [|q1 l1] eqn:E.
  - cbn [join]. by apply prefix_app_r.
  - rewrite !join_cons by done. rewrite <- E.
    do 2 apply prefix_app. apply IH.
Qed.

Lemma splitRuns_pieces b cur s :
  whiteSpaceCount cur = 0%nat →
  Forall (λ p, whiteSpaceCount p = 0%nat) (splitRuns b cur s).
Proof.
  revert b cur. induction s as [|c s IH]; intros b cur Hcur; cbn [splitRuns].
  - by constructor.
  - destruct (isWhiteSpace c) eqn:E, b.
    + by apply IH.
    + constructor; [done|]. by apply IH.
    + apply IH. unfold whiteSpaceCount in *.
      rewrite List.filter_app, length_app, Hcur. cbn. by rewrite E.
    + apply IH. unfold whiteSpaceCount in *.
      rewrite List.filter_app, length_app, Hcur. cbn. by rewrite E.
Qed.

Lemma whiteSpaceCount_join l :
  Forall (λ p, whiteSpaceCount p = 0%nat) l →
  whiteSpaceCount (join [32] l) = pred (length l).
Proof.
  induction l as [|p l IH]; [done|]. intros [Hp Hl]%Forall_cons.
  destruct l as [|q l]; [done|]. rewrite join_cons by done.
  unfold whiteSpaceCount in *.
  rewrite !List.filter_app, !length_app, Hp, (IH Hl). reflexivity.
Qed.

(** The words of a raw line that is not empty are not the empty string. *)
Lemma words_not_nil rawData :
  rawData ≠ [] → join [32] (take 10 (splitWhiteSpace rawData)) ≠ [].
Proof.
  unfold splitWhiteSpace. destruct rawData as [|c s]; [done|]. intros _.
  cbn [splitRuns]. destruct (isWhiteSpace c).
  - destruct (splitRuns_first true [] s) as (more & l & ->).
    cbn [take]. rewrite join_cons by done. by destruct more.
  - destruct (splitRuns_first false ([] ++ [c]) s) as (more & l & ->).
    cbn [take app]. by destruct (take 9 l).
Qed.

Lemma generateTitle_from_words rawData row :
  falsy (row !! lit "title") = true →
  falsy (row !! lit "name") = true →
  falsy (row !! lit "product_name") = true →
  generateTitle rawData row
  = if nonEmpty (join [32] (take 10 (splitWhiteSpace rawData)))
    then join [32] (take 10 (splitWhiteSpace rawData))
    else lit "Product".
Proof.
  intros Ht Hn Hp. unfold generateTitle, or. by rewrite Ht, Hn, Hp.
Qed.

End Titles.

(** X5.  The title fields of the row have priority in the order [title],
    [name], [product_name] over the raw line, and the generated title is
    never the empty string. *)
Theorem title_priority (rawData : jsstring) (row : CatalogRow) :
  generateTitle rawData row ≠ []
  ∧ (∀ v, row !! lit "title" = Some v → v ≠ [] →
     generateTitle rawData row = v)
  ∧ (∀ v, falsy (row !! lit "title") = true →
     row !! lit "name" = Some v → v ≠ [] →
     generateTitle rawData row = v)
  ∧ (∀ v, falsy (row !! lit "title") = true →
     falsy (row !! lit "name") = true →
     row !! lit "product_name" = Some v → v ≠ [] →
     generateTitle rawData row = v).
Proof.
  split; [|split; [|split]].
  - unfold generateTitle.
    destruct (nonEmpty (str _)) eqn:E1; [by destruct (str _)|].
    destruct (nonEmpty (join _ _)) eqn:E2; [by destruct (join _ _)|].
    vm_compute. discriminate.
  - intros v Hv Hne. unfold generateTitle, or. rewrite Hv.
    by destruct v.
  - intros v Ht Hv Hne. unfold generateTitle, or. rewrite Ht, Hv.
    by destruct v.
  - intros v Ht Hn Hv Hne. unfold generateTitle, or. rewrite Ht, Hn, Hv.
    by destruct v.
Qed.

Lemma title_priority_witness :
  let row : CatalogRow :=
    {[ lit "name" := lit "Red Dress"; lit "product_name" := lit "Dress" ]} in
  falsy (row !! lit "title") = true
  ∧ row !! lit "name" = Some (lit "Red Dress")
  ∧ lit "Red Dress" ≠ []
  ∧ generateTitle (lit "Blue Jeans") row = lit "Red Dress".
Proof.
  intros row.
  assert (Ht : falsy (row !! lit "title") = true) by (vm_compute; reflexivity).
  assert (Hn : row !! lit "name" = Some (lit "Red Dress"))
    by (vm_compute; reflexivity).
  assert (Hne : lit "Red Dress" ≠ []) by (vm_compute; discriminate).
  split; [exact Ht|]. split; [exact Hn|]. split; [exact Hne|].
  exact (proj1 (proj2 (proj2 (title_priority (lit "Blue Jeans") row)))
           (lit "Red Dress") Ht Hn Hne).
Defined.

(** X6.  For a row without title fields and a raw line that is not empty,
    the generated title is a prefix of the raw line with every run of
    white space replaced by one space; it is the whole of it when the raw
    line splits into at most ten pieces, and it never has more than nine
    white-space code units. *)
Theorem title_from_raw_line (rawData : jsstring) (row : CatalogRow) :
  falsy (row !! lit "title") = true →
  falsy (row !! lit "name") = true →
  falsy (row !! lit "product_name") = true →
  rawData ≠ [] →
  generateTitle rawData row `prefix_of` collapseWhiteSpace rawData
  ∧ (whiteSpaceCount (generateTitle rawData row) ≤ 9)%nat
  ∧ ((length (splitWhiteSpace rawData) ≤ 10)%nat →
     generateTitle rawData row = collapseWhiteSpace rawData).
Proof.
  intros Ht Hn Hp Hraw. rewrite generateTitle_from_words by done.
  pose proof (words_not_nil rawData Hraw) as Hwords.
  destruct (join [32] (take 10 (splitWhiteSpace rawData))) as [|c w] eqn:E;
    [done|].
  cbn [nonEmpty]. rewrite <- E. clear E Hwords.
  assert (Hall : join [32] (splitWhiteSpace rawData)
                 = collapseWhiteSpace rawData)
    by apply (join_splitRuns false []).
  split; [|split].
  - rewrite <- Hall. apply join_take_prefix.
  - rewrite whiteSpaceCount_join.
    + rewrite length_take. lia.
    + apply Forall_take. by apply splitRuns_pieces.
  - intros Hlen. by rewrite take_ge.
Qed.

Lemma title_from_raw_line_witness :
  let rawData := lit "  Nike   running shoes " in
  let row : CatalogRow := ∅ in
  falsy (row !! lit "title") = true
  ∧ falsy (row !! lit "name") = true
  ∧ falsy (row !! lit "product_name") = true
  ∧ rawData ≠ []
  ∧ (length (splitWhiteSpace rawData) ≤ 10)%nat
  ∧ generateTitle rawData row = lit " Nike running shoes ".
Proof.
  intros rawData row.
  assert (Hraw : rawData ≠ []) by (vm_compute; discriminate).
  assert (Hlen : (length (splitWhiteSpace rawData) ≤ 10)%nat)
    by (vm_compute; lia).
  do 3 (split; [reflexivity|]). split; [exact Hraw|]. split; [exact Hlen|].
  rewrite (proj2 (proj2 (title_from_raw_line rawData row
                           eq_refl eq_refl eq_refl Hraw)) Hlen).
  vm_compute. reflexivity.
Defined.

Section TidyTitles.
Implicit Types (s t text : jsstring) (b : bool) (c : char).

Lemma spacedOnce_collapse s : ∀ b, spacedOnce b (collapseRuns b s) = true.
Proof.
  induction s as [|c s IH]; intros b; [done|]. cbn [collapseRuns].
  destruct (isWhiteSpace c) eqn:E, b.
  - apply IH.
  - change (spacedOnce false (32 :: collapseRuns true s))
      with (spacedOnce true (collapseRuns true s)). apply IH.
  - cbn [spacedOnce]. rewrite E. apply IH.
  - cbn [spacedOnce]. rewrite E. apply IH.
Qed.

Lemma collapseRuns_snoc s c : ∀ b,
  isWhiteSpace c = false →
  collapseRuns b (s ++ [c]) = collapseRuns b s ++ [c].
Proof.
  induction s as [|d s IH]; intros b Hc; cbn [app collapseRuns].
  - by rewrite Hc.
  - destruct (isWhiteSpace d), b; by rewrite IH.
Qed.

Lemma dropWhile_suffix (p : char → bool) s : ∃ pre, s = pre ++ dropWhile p s.
Proof.
  induction s as [|c s [pre IH]]; [by exists []|]. cbn [dropWhile].
  destruct (p c); [|by exists []]. exists (c :: pre). cbn [app]. by f_equal.
Qed.

(** A trimmed string is empty, or starts and ends with code units that
    are not white space. *)
Lemma trim_ends s :
  trim s = []
  ∨ ∃ c t t1 d,
      trim s = c :: t ∧ isWhiteSpace c = false
      ∧ trim s = t1 ++ [d] ∧ isWhiteSpace d = false.
Proof.
  unfold trim, trimEnd, trimStart.
  destruct (dropWhile isWhiteSpace (reverse (dropWhile isWhiteSpace s)))
    as [|d v] eqn:Ev; [by left|].
  right. apply dropWhile_head in Ev as Hd.
  destruct (dropWhile_suffix isWhiteSpace (reverse (dropWhile isWhiteSpace s)))
    as [pre Hpre].
  rewrite Ev in Hpre. apply (f_equal reverse) in Hpre.
  rewrite reverse_involutive, reverse_app in Hpre.
  destruct (reverse (d :: v)) as [|c t] eqn:Er.
  - apply (f_equal length) in Er. rewrite length_reverse in Er. done.
  - exists c, t, (reverse v), d. rewrite reverse_cons in Er.
    split; [done|]. split; [|by split].
    destruct (dropWhile isWhiteSpace s) as [|c1 u] eqn:Eu; [done|].
    apply dropWhile_head in Eu. by injection Hpre as -> _.
Qed.

Lemma tidy_is_tidy text : tidyForm (tidy text) = true.
Proof.
  unfold tidy, tidyForm, collapseWhiteSpace.
  destruct (trim_ends text) as [->|(c & t & t1 & d & Hhead & Hc & Hlast & Hd)].
  - reflexivity.
  - apply andb_true_intro. split.
    + rewrite Hhead. cbn [collapseRuns spacedOnce]. rewrite Hc.
      cbn [spacedOnce]. rewrite Hc. apply spacedOnce_collapse.
    + rewrite Hlast, collapseRuns_snoc, last_snoc by done. by rewrite Hd.
Qed.

End TidyTitles.

(** X7.  The title of each of the four platforms is tidy: its only white
    space is single spaces between words, with none at either end.  A
    platform that is not one of the four gets the base title as it is. *)
Theorem platform_title_is_tidy (platform rawData : jsstring)
  (row : CatalogRow) :
  (platform ∈ platforms →
   tidyForm (generatePlatformTitle platform row rawData) = true)
  ∧ (platform ∉ platforms →
     generatePlatformTitle platform row rawData
     = str (row !! lit "product_title" ||| row !! lit "title"
            ||| Some (lit "Product"))).
Proof.
  unfold platforms, generatePlatformTitle. split; intros Hp.
  - repeat case_decide; try apply tidy_is_tidy.
    repeat (apply elem_of_cons in Hp as [Hp|Hp]; [done|]).
    by apply elem_of_nil in Hp.
  - repeat (apply not_elem_of_cons in Hp as [? Hp]).
    by repeat case_decide.
Qed.

Lemma platform_title_is_tidy_witness :
  let row : CatalogRow :=
    {[ lit "title" := lit "  Running   Shoes "; lit "color" := lit "Black" ]} in
  lit "meesho" ∈ platforms
  ∧ generatePlatformTitle (lit "meesho") row [] = lit "Running Shoes Black"
  ∧ tidyForm (generatePlatformTitle (lit "meesho") row []) = true.
Proof.
  intros row.
  assert (Hin : lit "meesho" ∈ platforms)
    by (unfold platforms; do 2 right; left).
  split; [exact Hin|]. split; [vm_compute; reflexivity|].
  exact (proj1 (platform_title_is_tidy (lit "meesho") [] row) Hin).
Defined.

Section Vocabulary.
Implicit Types (p s word lowerData rawData : jsstring)
  (vocabulary : list jsstring) (row : CatalogRow).

Lemma startsWith_iff p s : startsWith p s = true ↔ ∃ post, s = p ++ post.
Proof.
  revert s. induction p as [|a p IH]; intros s; cbn [startsWith].
  - split; [intros _; by exists s|done].
  - destruct s as [|b s]; [split; [done|by intros [post [=]]]|].
    rewrite andb_true_iff, N.eqb_eq, IH. split.
    + intros [-> [post ->]]. by exists post.
    + intros [post [= -> ->]]. split; [done|by exists post].
Qed.

Lemma includes_iff p s :
  includes p s = true ↔ ∃ pre post, s = pre ++ p ++ post.
Proof.
  induction s as [|b s IH]; cbn [includes]; rewrite orb_true_iff.
  - rewrite startsWith_iff. split.
    + intros [[post Hp]|?]; [|done]. by exists [], post.
    + intros (pre & post & Hs). left. destruct pre; [|done].
      by exists post.
  - rewrite startsWith_iff, IH. split.
    + intros [[post Hp]|(pre & post & ->)]; [by exists [], post|].
      by exists (b :: pre), post.
    + intros ([|c pre] & post & Hs); [left; by exists post|].
      right. injection Hs as -> ->. by exists pre, post.
Qed.

(** A text that includes a word includes every ending of the word. *)
Lemma includes_ending (a p s : jsstring) :
  includes (a ++ p) s = true → includes p s = true.
Proof.
  rewrite !includes_iff. intros (pre & post & ->).
  exists (pre ++ a), post. by rewrite <- !app_assoc.
Qed.

Lemma firstIncluded_elem vocabulary lowerData word :
  firstIncluded vocabulary lowerData = Some word → word ∈ vocabulary.
Proof.
  induction vocabulary as [|w vocabulary IH]; [done|]. cbn [firstIncluded].
  destruct (includes (toLowerCase w) lowerData).
  - intros [= ->]. by left.
  - intros H. right. by apply IH.
Qed.

Lemma truthy_value (o : option jsstring) :
  falsy o = false → ∃ v, o = Some v ∧ v ≠ [] ∧ str o = v.
Proof. destruct o as [[|c v]|]; try done. intros _. by exists (c :: v). Qed.

End Vocabulary.

(** X8.  A vocabulary lookup returns the first word of the list, in the
    order of the list, whose lower case occurs in the lowered text, and
    nothing when the lower case of no word of the list occurs in it. *)
Theorem first_vocabulary_word (vocabulary : list jsstring)
  (lowerData : jsstring) :
  match firstIncluded vocabulary lowerData with
  | Some word =>
      ∃ before after,
        vocabulary = before ++ word :: after
        ∧ includes (toLowerCase word) lowerData = true
        ∧ Forall (λ w, includes (toLowerCase w) lowerData = false) before
  | None =>
      Forall (λ w, includes (toLowerCase w) lowerData = false) vocabulary
  end.
Proof.
  induction vocabulary as [|w vocabulary IH]; [by constructor|].
  cbn [firstIncluded]. destruct (includes (toLowerCase w) lowerData) eqn:E.
  - exists [], vocabulary. by repeat split.
  - destruct (firstIncluded vocabulary lowerData) as [word|].
    + destruct IH as (before & after & -> & Hword & Hbefore).
      exists (w :: before), after. repeat split; [done|]. by constructor.
    + by constructor.
Qed.

(** X9.  An attribute that the row does not have is drawn from the fixed
    vocabulary, or is the fallback of its extractor: the brand is one of
    the common brands, the category one of the categories or "General", the
    color one of the colors or "Multi", the material one of the
    materials.  An attribute that the row has is returned as it is. *)
Theorem attribute_from_vocabulary (rawData : jsstring) (row : CatalogRow) :
  (falsy (row !! lit "brand") = true →
   extractBrand rawData row ∈ commonBrands)
  ∧ (falsy (row !! lit "category") = true →
     extractCategory rawData row ∈ categories
     ∨ extractCategory rawData row = lit "General")
  ∧ (falsy (row !! lit "color") = true →
     extractColor rawData row ∈ colors
     ∨ extractColor rawData row = lit "Multi")
  ∧ (falsy (row !! lit "material") = true →
     extractMaterial rawData row ∈ materials)
  ∧ (∀ v, row !! lit "brand" = Some v → v ≠ [] →
     extractBrand rawData row = v)
  ∧ (∀ v, row !! lit "category" = Some v → v ≠ [] →
     extractCategory rawData row = v)
  ∧ (∀ v, row !! lit "color" = Some v → v ≠ [] →
     extractColor rawData row = v)
  ∧ (∀ v, row !! lit "material" = Some v → v ≠ [] →
     extractMaterial rawData row = v).
Proof.
  unfold extractBrand, extractCategory, extractColor, extractMaterial.
  repeat split.
  - intros ->. cbn [negb].
    destruct (firstIncluded commonBrands _) as [w|] eqn:E.
    + by apply firstIncluded_elem in E.
    + unfold commonBrands. do 7 right. left.
  - intros ->. cbn [negb].
    destruct (firstIncluded categories _) as [w|] eqn:E; [|by right].
    left. by apply firstIncluded_elem in E.
  - intros ->. cbn [negb].
    destruct (firstIncluded colors _) as [w|] eqn:E; [|by right].
    left. by apply firstIncluded_elem in E.
  - intros ->. cbn [negb].
    destruct (firstIncluded materials _) as [w|] eqn:E.
    + by apply firstIncluded_elem in E.
    + unfold materials. left.
  - intros v -> Hv. by destruct v.
  - intros v -> Hv. by destruct v.
  - intros v -> Hv. by destruct v.
  - intros v -> Hv. by destruct v.
Qed.

Lemma attribute_from_vocabulary_witness :
  let row : CatalogRow := {[ lit "color" := lit "Teal" ]} in
  falsy (row !! lit "brand") = true
  ∧ row !! lit "color" = Some (lit "Teal")
  ∧ lit "Teal" ≠ []
  ∧ extractBrand (lit "blue denim jacket") row ∈ commonBrands
  ∧ extractColor (lit "blue denim jacket") row = lit "Teal".
Proof.
  intros row.
  assert (Hb : falsy (row !! lit "brand") = true) by (vm_compute; reflexivity).
  assert (Hc : row !! lit "color" = Some (lit "Teal"))
    by (vm_compute; reflexivity).
  assert (Hne : lit "Teal" ≠ []) by (vm_compute; discriminate).
  destruct (attribute_from_vocabulary (lit "blue denim jacket") row)
    as (Hbrand & _ & _ & _ & _ & _ & Hcolor & _).
  split; [exact Hb|]. split; [exact Hc|]. split; [exact Hne|].
  split; [exact (Hbrand Hb)|exact (Hcolor _ Hc Hne)].
Defined.

(** X10.  The category "T-Shirt" is never extracted from a raw line: its
    lower case contains the lower case of "Shirt", which comes first in the
    list, so a raw line that mentions a t-shirt gets the category
    "Shirt". *)
Theorem tshirt_is_never_extracted (rawData : jsstring) (row : CatalogRow) :
  falsy (row !! lit "category") = true →
  extractCategory rawData row ≠ lit "T-Shirt"
  ∧ (includes (lit "t-shirt") (toLowerCase rawData) = true →
     extractCategory rawData row = lit "Shirt").
Proof.
  intros Hrow. unfold extractCategory, categories. rewrite Hrow.
  cbn [negb firstIncluded].
  change (toLowerCase (lit "Shirt")) with (lit "shirt").
  change (toLowerCase (lit "T-Shirt")) with (lit "t-" ++ lit "shirt").
  destruct (includes (lit "shirt") (toLowerCase rawData)) eqn:Eshirt.
  - split; [vm_compute; discriminate|done].
  - destruct (includes (lit "t-" ++ lit "shirt") (toLowerCase rawData))
      eqn:Etshirt.
    { apply includes_ending in Etshirt. congruence. }
    split.
    + repeat match goal with
        | |- context [if ?b then _ else _] => destruct b
        end; vm_compute; discriminate.
    + intros H. change (lit "t-shirt") with (lit "t-" ++ lit "shirt") in H.
      congruence.
Qed.

Lemma tshirt_is_never_extracted_witness :
  let row : CatalogRow := ∅ in
  falsy (row !! lit "category") = true
  ∧ includes (lit "t-shirt") (toLowerCase (lit "Nike Blue T-Shirt")) = true
  ∧ extractCategory (lit "Nike Blue T-Shirt") row = lit "Shirt".
Proof.
  intros row. split; [reflexivity|].
  assert (Hin : includes (lit "t-shirt") (toLowerCase (lit "Nike Blue T-Shirt"))
                = true) by (vm_compute; reflexivity).
  split; [exact Hin|].
  exact (proj2 (tshirt_is_never_extracted (lit "Nike Blue T-Shirt") row
                  eq_refl) Hin).
Defined.

(** * The size pattern *)

Section SizePattern.
Context {A : Type}.
Implicit Types (k : mstate → option A) (st : mstate) (w : jsstring)
  (rs : list regex).

Lemma exec_WordBoundary st k :
  exec WordBoundary st k
  = if xorb (isWordAt (prev st)) (isWordAt (head (rest st)))
    then k st else None.
Proof. reflexivity. Qed.

(** A word of the pattern, matched without regard to case, consumes text
    that has the upper case of the word. *)
Lemma exec_word w : ∀ st k x,
  exec (Word LitI w) st k = Some x →
  ∃ matched rest1 pv,
    rest st = matched ++ rest1
    ∧ toUpperCase matched = toUpperCase w
    ∧ k (MState pv rest1 (cap1 st)) = Some x.
Proof.
  induction w as [|c w IH]; intros st k x; cbn [Word].
  - rewrite exec_Eps. intros Hk. exists [], (rest st), (prev st).
    by destruct st.
  - unfold LitI at 1. rewrite exec_Seq, exec_Chr.
    destruct (rest st) as [|d s1] eqn:Est; [done|].
    destruct ((upperChar d =? upperChar c) && (d <? 128)) eqn:Ed; [|done].
    intros (matched & rest1 & pv & Hrest & Hup & Hk)%IH.
    cbn [rest cap1] in *. subst s1. exists (d :: matched), rest1, pv.
    repeat split; [|done]. cbn [toUpperCase map].
    apply andb_prop in Ed as [Ed _]. apply N.eqb_eq in Ed.
    unfold toUpperCase in Hup. by rewrite Ed, Hup.
Qed.

Lemma exec_alternatives rs : ∀ st k x,
  rs ≠ [] → exec (Alts rs) st k = Some x →
  ∃ r, r ∈ rs ∧ exec r st k = Some x.
Proof.
  induction rs as [|r rs IH]; intros st k x Hne; [done|].
  destruct rs as [|r1 rs].
  - intros H. exists r. split; [by left|done].
  - change (Alts (r :: r1 :: rs)) with (Alt r (Alts (r1 :: rs))).
    rewrite exec_Alt. destruct (exec r st k) as [y|] eqn:E.
    + intros [= ->]. exists r. split; [by left|done].
    + intros (r2 & Hin & H)%IH; [|done]. exists r2. split; [by right|done].
Qed.

End SizePattern.

Section SizeSearch.
Implicit Types (s rawData : jsstring) (row : CatalogRow).

Lemma search_attempt r s : ∀ pv st,
  search r pv s = Some st →
  ∃ pv1 s1, exec r (MState pv1 s1 None) Some = Some st.
Proof.
  induction s as [|c s IH]; intros pv st; cbn [search].
  - destruct (exec r (MState pv [] None) Some) eqn:E; [|done].
    intros [= <-]. eauto.
  - destruct (exec r (MState pv (c :: s) None) Some) eqn:E.
    + intros [= <-]. eauto.
    + apply IH.
Qed.

(** The text that the size pattern captures is one of its words, in some
    case. *)
Lemma match1_sizePattern s group1 :
  match1 sizePattern s = Some group1 →
  ∃ w, w ∈ sizeNames ∧ toUpperCase group1 = toUpperCase w.
Proof.
  unfold match1. destruct (search sizePattern None s) as [st|] eqn:E; [|done].
  cbn. intros Hcap. apply search_attempt in E as (pv & s1 & E).
  change sizePattern
    with (Seq WordBoundary
            (Seq (Group (Alts (map (Word LitI) sizeNames))) WordBoundary))
    in E.
  rewrite exec_Seq, exec_WordBoundary in E.
  destruct (xorb _ _); [|done].
  rewrite exec_Seq, exec_Group in E.
  apply exec_alternatives in E as (r & Hr & E); [|done].
  apply list_elem_of_fmap in Hr as (w & -> & Hw).
  apply exec_word in E as (matched & rest1 & pv1 & Hrest & Hup & E).
  cbn [rest prev cap1] in E. rewrite exec_WordBoundary in E.
  destruct (xorb _ _); [|done]. injection E as <-. cbn [cap1] in Hcap.
  injection Hcap as <-. exists w. split; [done|].
  cbn [rest] in Hrest. rewrite Hrest, length_app.
  replace (length matched + length rest1 - length rest1)%nat
    with (length matched) by lia.
  by rewrite take_app_length.
Qed.

Lemma sizeNames_upper : Forall (λ w, toUpperCase w = w) sizeNames.
Proof. repeat constructor. Qed.

End SizeSearch.

(** X11.  The size of a row that has none is always one of the fifteen
    sizes of the pattern, written in upper case ("M" when the raw line has
    no size); the size of a row that has one is returned as it is. *)
Theorem size_from_pattern (rawData : jsstring) (row : CatalogRow) :
  (falsy (row !! lit "size") = true → extractSize rawData row ∈ sizeNames)
  ∧ (∀ v, row !! lit "size" = Some v → v ≠ [] → extractSize rawData row = v).
Proof.
  unfold extractSize. split.
  - intros ->. cbn [negb].
    destruct (match1 sizePattern rawData) as [group1|] eqn:E.
    + apply match1_sizePattern in E as (w & Hw & ->).
      pose proof sizeNames_upper as Hup. rewrite Forall_forall in Hup.
      by rewrite (Hup w Hw).
    + unfold sizeNames. do 2 right. left.
  - intros v -> Hv. by destruct v.
Qed.

Lemma size_from_pattern_witness :
  let row : CatalogRow := ∅ in
  falsy (row !! lit "size") = true
  ∧ extractSize (lit "slim fit jeans, waist 32, xl also") row = lit "32"
  ∧ extractSize (lit "slim fit jeans, waist 32, xl also") row ∈ sizeNames.
Proof.
  intros row. split; [reflexivity|]. split; [vm_compute; reflexivity|].
  exact (proj1 (size_from_pattern (lit "slim fit jeans, waist 32, xl also")
                  row) eq_refl).
Defined.

(** * What the platform fields are made of *)

Section PlatformValues.
Implicit Types (p q rawInfo : jsstring) (er row : CatalogRow)
  (l : list jsstring).

Lemma generateKeywords_ext p q er row rawInfo rawInfo1 :
  er !! lit "brand" = row !! lit "brand" →
  er !! lit "category" = row !! lit "category" →
  er !! lit "color" = row !! lit "color" →
  er !! lit "material" = row !! lit "material" →
  generateKeywords p er rawInfo = generateKeywords q row rawInfo1.
Proof. intros Hb Hc Hl Hm. unfold generateKeywords. by rewrite Hb, Hc, Hl, Hm. Qed.

Lemma generatePlatformDescription_ext p er row rawInfo :
  er !! lit "description" = row !! lit "description" →
  er !! lit "brand" = row !! lit "brand" →
  er !! lit "material" = row !! lit "material" →
  generatePlatformDescription p er rawInfo
  = generatePlatformDescription p row rawInfo.
Proof.
  intros Hd Hb Hm. unfold generatePlatformDescription. by rewrite Hd, Hb, Hm.
Qed.

Lemma platformFields_description rawInfo er p :
  ∃ er1,
    (∀ j, j ∉ platformKeys p → er1 !! j = er !! j)
    ∧ platformFields rawInfo er p !! (p ++ lit "_description")
      = if falsy (er !! (p ++ lit "_description"))
        then Some (generatePlatformDescription p er1 rawInfo)
        else er !! (p ++ lit "_description").
Proof.
  unfold platformFields. cbv zeta. eexists. split.
  2: { rewrite lookup_assign_ne by (apply suffix_neq; key_neq).
       rewrite lookup_assign_eq.
       rewrite !(lookup_assign_ne _ (p ++ lit "_description"))
         by (apply suffix_neq; key_neq).
       reflexivity. }
  intros j Hj. unfold platformKeys in Hj.
  apply not_elem_of_cons in Hj as [H1 _]. by rewrite lookup_assign_ne.
Qed.

Lemma enrichFields_keywords rawInfo row p :
  p ∈ platforms →
  enrichFields rawInfo row !! (p ++ lit "_keywords")
  = if falsy (row !! (p ++ lit "_keywords"))
    then Some (generateKeywords p row rawInfo)
    else row !! (p ++ lit "_keywords").
Proof.
  intros Hp. unfold platforms in Hp.
  repeat (apply elem_of_cons in Hp as [->|Hp]);
    try (by apply elem_of_nil in Hp);
    platform_field;
    match goal with
    | |- context [platformFields ?r ?er ?q !! _] =>
        destruct (platformFields_keywords r er q) as (er1 & Hframe & ->)
    end;
    read;
    match goal with
    | |- (if ?b then _ else _) = _ => destruct b; [|reflexivity]
    end;
    f_equal; apply generateKeywords_ext; rewrite Hframe by key_notin;
    by read.
Qed.

Lemma enrichFields_platform_description rawInfo row p :
  p ∈ platforms →
  enrichFields rawInfo row !! (p ++ lit "_description")
  = if falsy (row !! (p ++ lit "_description"))
    then Some (generatePlatformDescription p
                 (<[lit "description" :=
                      str (enrichFields rawInfo row !! lit "description")]>
                    row) rawInfo)
    else row !! (p ++ lit "_description").
Proof.
  intros Hp. rewrite enrichFields_description. unfold platforms in Hp.
  repeat (apply elem_of_cons in Hp as [->|Hp]);
    try (by apply elem_of_nil in Hp);
    platform_field;
    match goal with
    | |- context [platformFields ?r ?er ?q !! _] =>
        destruct (platformFields_description r er q) as (er1 & Hframe & ->)
    end;
    read;
    match goal with
    | |- (if ?b then _ else _) = _ => destruct b; [|reflexivity]
    end;
    f_equal; apply generatePlatformDescription_ext;
    rewrite Hframe by key_notin; read;
    rewrite ?lookup_assign_eq, ?lookup_insert_eq,
      ?lookup_insert_ne by key_neq;
    read; try done;
    by destruct (row !! lit "description") as [[|? ?]|].
Qed.

Lemma join_app_suffix (sep : jsstring) l1 l2 :
  l2 ≠ [] → ∃ front, join sep (l1 ++ l2) = front ++ join sep l2.
Proof.
  intros Hne. induction l1 as [|x l1 [front IH]]; [by exists []|].
  cbn [app]. rewrite join_cons by (by destruct l1, l2).
  exists (x ++ sep ++ front). by rewrite IH, <- !app_assoc.
Qed.

(** The keywords end with the five fixed words. *)
Lemma generateKeywords_fixed p row rawInfo :
  ∃ front,
    generateKeywords p row rawInfo
    = front ++ lit "quality, premium, best, latest, trending".
Proof.
  unfold generateKeywords.
  change (lit "quality, premium, best, latest, trending")
    with (join (lit ", ") [lit "quality"; lit "premium"; lit "best";
                           lit "latest"; lit "trending"]).
  match goal with
  | |- context [List.filter nonEmpty [?b; ?c; ?l; ?m; _; _; _; _; _]] =>
      change [b; c; l; m; lit "quality"; lit "premium"; lit "best";
              lit "latest"; lit "trending"]
        with ([b; c; l; m]
              ++ [lit "quality"; lit "premium"; lit "best"; lit "latest";
                  lit "trending"])
  end.
  rewrite List.filter_app.
  change (List.filter nonEmpty [lit "quality"; lit "premium"; lit "best";
                                lit "latest"; lit "trending"])
    with [lit "quality"; lit "premium"; lit "best"; lit "latest";
          lit "trending"].
  by apply join_app_suffix.
Qed.

End PlatformValues.

(** X12.  The keywords of a platform that the row does not have are made
    from the brand, category, color and material of the input row, never
    from the extracted ones; they end with the five fixed words and are
    the same for the four platforms. *)
Theorem keywords_from_input_row (rawInfo : jsstring) (row : CatalogRow)
  (p : jsstring) :
  p ∈ platforms →
  falsy (row !! (p ++ lit "_keywords")) = true →
  enrichFields rawInfo row !! (p ++ lit "_keywords")
  = Some (generateKeywords p row rawInfo)
  ∧ (∃ front,
       generateKeywords p row rawInfo
       = front ++ lit "quality, premium, best, latest, trending")
  ∧ (∀ q, q ∈ platforms →
     falsy (row !! (q ++ lit "_keywords")) = true →
     enrichFields rawInfo row !! (q ++ lit "_keywords")
     = enrichFields rawInfo row !! (p ++ lit "_keywords")).
Proof.
  intros Hp Hrow. rewrite enrichFields_keywords, Hrow by done.
  split; [done|]. split; [apply generateKeywords_fixed|].
  intros q Hq Hqrow. by rewrite enrichFields_keywords, Hqrow.
Qed.

Lemma keywords_from_input_row_witness :
  let row : CatalogRow := {[ lit "brand" := lit "Zara" ]} in
  let rawInfo := lit "Nike Blue T-Shirt" in
  lit "myntra" ∈ platforms
  ∧ falsy (row !! (lit "myntra" ++ lit "_keywords")) = true
  ∧ enrichFields rawInfo row !! (lit "myntra" ++ lit "_keywords")
    = Some (lit "Zara, quality, premium, best, latest, trending").
Proof.
  intros row rawInfo.
  assert (Hin : lit "myntra" ∈ platforms)
    by (unfold platforms; do 3 right; left).
  split; [exact Hin|]. split; [reflexivity|].
  rewrite (proj1 (keywords_from_input_row rawInfo row (lit "myntra")
                    Hin eq_refl)).
  vm_compute. reflexivity.
Defined.

(** X13.  The description of a platform that the row does not have is
    generated from the description of the result and from the brand and
    the material of the input row; it starts with the description of the
    result and a blank line. *)
Theorem platform_description_from_description (rawInfo : jsstring)
  (row : CatalogRow) (p : jsstring) :
  p ∈ platforms →
  falsy (row !! (p ++ lit "_description")) = true →
  ∃ description,
    enrichFields rawInfo row !! lit "description" = Some description
    ∧ enrichFields rawInfo row !! (p ++ lit "_description")
      = Some (generatePlatformDescription p
                (<[lit "description" := description]> row) rawInfo)
    ∧ ∃ block,
        enrichFields rawInfo row !! (p ++ lit "_description")
        = Some (description ++ nl ++ nl ++ block).
Proof.
  intros Hp Hrow.
  rewrite enrichFields_platform_description, Hrow by done.
  assert (∃ description,
            enrichFields rawInfo row !! lit "description" = Some description)
    as [description Hd].
  { rewrite enrichFields_description.
    destruct (row !! lit "description") as [[|c v]|]; cbn; eauto. }
  exists description. rewrite Hd. cbn [str default].
  split; [done|]. split; [done|].
  unfold generatePlatformDescription. rewrite lookup_insert_eq.
  unfold id.
  assert (Hbase : str (Some description ||| Some []) = description)
    by (by destruct description).
  rewrite Hbase. unfold platforms in Hp.
  repeat case_decide; try (eexists; reflexivity).
  repeat (apply elem_of_cons in Hp as [Hp|Hp]; [contradiction|]).
  by apply elem_of_nil in Hp.
Qed.

Lemma platform_description_from_description_witness :
  let row : CatalogRow := {[ lit "description" := lit "Soft tee" ]} in
  lit "meesho" ∈ platforms
  ∧ falsy (row !! (lit "meesho" ++ lit "_description")) = true
  ∧ ∃ description,
      enrichFields [] row !! lit "description" = Some description
      ∧ enrichFields [] row !! (lit "meesho" ++ lit "_description")
        = Some (generatePlatformDescription (lit "meesho")
                  (<[lit "description" := description]> row) [])
      ∧ ∃ block,
          enrichFields [] row !! (lit "meesho" ++ lit "_description")
          = Some (description ++ nl ++ nl ++ block).
Proof.
  intros row.
  assert (Hin : lit "meesho" ∈ platforms)
    by (unfold platforms; do 2 right; left).
  split; [exact Hin|]. split; [reflexivity|].
  exact (platform_description_from_description [] row (lit "meesho")
           Hin eq_refl).
Defined.

(** * The fields that are never empty *)

Section Filled.
Implicit Types (rawInfo rawData k v w p : jsstring) (row er : CatalogRow)
  (vocabulary : list jsstring).

Lemma decide_elem_of k (l : list jsstring) :
  bool_decide (k ∈ l) = true → k ∈ l.
Proof. apply bool_decide_eq_true_1. Qed.

Lemma enrichFields_stock_status rawInfo row :
  enrichFields rawInfo row !! lit "stock_status"
  = if falsy (row !! lit "stock_status") then Some (lit "In Stock")
    else row !! lit "stock_status".
Proof.
  unfold enrichFields. cbv zeta. rewrite lookup_assign_eq. by read.
Qed.

Lemma app_nonEmpty (a b : jsstring) : b ≠ [] → a ++ b ≠ [].
Proof. intros Hb [_ Hab]%app_eq_nil. done. Qed.

Lemma app_nonEmpty_l (a b : jsstring) : a ≠ [] → a ++ b ≠ [].
Proof. intros Ha [Hab _]%app_eq_nil. done. Qed.

Lemma generateDescription_nonEmpty rawData row :
  generateDescription rawData row ≠ [].
Proof.
  unfold generateDescription. cbv zeta.
  destruct (str (row !! lit "description" ||| row !! lit "desc"
                 ||| Some [])) as [|c desc];
    cbn [nonEmpty]; [|done].
  apply app_nonEmpty, app_nonEmpty_l. key_neq.
Qed.

Lemma all_nonEmpty vocabulary w :
  forallb nonEmpty vocabulary = true → w ∈ vocabulary → w ≠ [].
Proof.
  induction vocabulary as [|x vocabulary IH]; cbn [forallb].
  - by intros _ ?%elem_of_nil.
  - intros [Hx Hall]%andb_true_iff [->|Hw]%elem_of_cons;
      [by destruct x|by apply IH].
Qed.

Lemma looked_up_nonEmpty vocabulary lowerData (fallback : jsstring) :
  forallb nonEmpty vocabulary = true → fallback ≠ [] →
  match firstIncluded vocabulary lowerData with
  | Some word => word
  | None => fallback
  end ≠ [].
Proof.
  intros Hall Hfallback.
  destruct (firstIncluded vocabulary lowerData) as [word|] eqn:E; [|done].
  apply firstIncluded_elem in E. by apply (all_nonEmpty vocabulary).
Qed.

Lemma extractBrand_nonEmpty rawData row : extractBrand rawData row ≠ [].
Proof.
  unfold extractBrand. cbv zeta.
  destruct (falsy (row !! lit "brand")) eqn:E; cbn [negb].
  - apply looked_up_nonEmpty; [vm_compute; reflexivity|key_neq].
  - by apply truthy_value in E as (v & _ & Hv & ->).
Qed.

Lemma extractCategory_nonEmpty rawData row :
  extractCategory rawData row ≠ [].
Proof.
  unfold extractCategory. cbv zeta.
  destruct (falsy (row !! lit "category")) eqn:E; cbn [negb].
  - apply looked_up_nonEmpty; [vm_compute; reflexivity|key_neq].
  - by apply truthy_value in E as (v & _ & Hv & ->).
Qed.

Lemma extractColor_nonEmpty rawData row : extractColor rawData row ≠ [].
Proof.
  unfold extractColor. cbv zeta.
  destruct (falsy (row !! lit "color")) eqn:E; cbn [negb].
  - apply looked_up_nonEmpty; [vm_compute; reflexivity|key_neq].
  - by apply truthy_value in E as (v & _ & Hv & ->).
Qed.

Lemma extractMaterial_nonEmpty rawData row :
  extractMaterial rawData row ≠ [].
Proof.
  unfold extractMaterial. cbv zeta.
  destruct (falsy (row !! lit "material")) eqn:E; cbn [negb].
  - apply looked_up_nonEmpty; [vm_compute; reflexivity|key_neq].
  - by apply truthy_value in E as (v & _ & Hv & ->).
Qed.

Lemma extractSize_nonEmpty rawData row : extractSize rawData row ≠ [].
Proof.
  unfold extractSize.
  destruct (falsy (row !! lit "size")) eqn:E; cbn [negb].
  - destruct (match1 sizePattern rawData) as [group1|] eqn:F; [|key_neq].
    apply match1_sizePattern in F as (w & Hw & ->).
    pose proof sizeNames_upper as Hup. rewrite Forall_forall in Hup.
    rewrite (Hup w Hw).
    apply (all_nonEmpty sizeNames); [vm_compute; reflexivity|exact Hw].
  - by apply truthy_value in E as (v & _ & Hv & ->).
Qed.

Lemma generateKeywords_nonEmpty p row rawInfo :
  generateKeywords p row rawInfo ≠ [].
Proof.
  destruct (generateKeywords_fixed p row rawInfo) as [front ->].
  apply app_nonEmpty. key_neq.
Qed.

Lemma generatePlatformDescription_nonEmpty p row rawInfo :
  p ∈ platforms → generatePlatformDescription p row rawInfo ≠ [].
Proof.
  intros Hp. unfold generatePlatformDescription. cbv zeta.
  unfold platforms in Hp.
  repeat case_decide;
    try (apply app_nonEmpty, app_nonEmpty_l; discriminate).
  repeat (apply elem_of_cons in Hp as [Hp|Hp]; [contradiction|]).
  by apply elem_of_nil in Hp.
Qed.

End Filled.

(** Membership of a literal key in a list of literal keys. *)
Ltac key_in := apply decide_elem_of; vm_compute; reflexivity.

(** A guarded assignment of a value that is not empty leaves a value that
    is not empty. *)
Ltac filled_by nonempty :=
  lazymatch goal with
  | |- ∃ v, (if falsy ?o then _ else _) = Some v ∧ _ =>
      let E := fresh "E" in
      let v := fresh "v" in
      let Ho := fresh "Ho" in
      let Hv := fresh "Hv" in
      destruct (falsy o) eqn:E;
      [eexists; split; [reflexivity|nonempty]
      |apply truthy_value in E as (v & Ho & Hv & _); exists v;
       split; assumption]
  end.

(** X14.  After enrichment the description, the five attributes, the stock
    status and the description and keywords of every platform are present
    and not empty, whatever the row and the raw line are. *)
Theorem filled_keys_never_empty (rawInfo : jsstring) (row : CatalogRow)
  (k : jsstring) :
  k ∈ filledKeys →
  ∃ v, enrichFields rawInfo row !! k = Some v ∧ v ≠ [].
Proof.
  intros Hk. unfold filledKeys, platforms in Hk. cbn [map concat app] in Hk.
  repeat (apply elem_of_cons in Hk as [->|Hk]);
    try (by apply elem_of_nil in Hk).
  - rewrite enrichFields_description.
    filled_by ltac:(apply generateDescription_nonEmpty).
  - rewrite enrichFields_brand.
    filled_by ltac:(apply extractBrand_nonEmpty).
  - rewrite enrichFields_category.
    filled_by ltac:(apply extractCategory_nonEmpty).
  - rewrite enrichFields_color.
    filled_by ltac:(apply extractColor_nonEmpty).
  - rewrite enrichFields_size.
    filled_by ltac:(apply extractSize_nonEmpty).
  - rewrite enrichFields_material.
    filled_by ltac:(apply extractMaterial_nonEmpty).
  - rewrite enrichFields_stock_status. filled_by ltac:(key_neq).
  - rewrite enrichFields_platform_description by key_in.
    filled_by ltac:(apply generatePlatformDescription_nonEmpty; key_in).
  - rewrite enrichFields_keywords by key_in.
    filled_by ltac:(apply generateKeywords_nonEmpty).
  - rewrite enrichFields_platform_description by key_in.
    filled_by ltac:(apply generatePlatformDescription_nonEmpty; key_in).
  - rewrite enrichFields_keywords by key_in.
    filled_by ltac:(apply generateKeywords_nonEmpty).
  - rewrite enrichFields_platform_description by key_in.
    filled_by ltac:(apply generatePlatformDescription_nonEmpty; key_in).
  - rewrite enrichFields_keywords by key_in.
    filled_by ltac:(apply generateKeywords_nonEmpty).
  - rewrite enrichFields_platform_description by key_in.
    filled_by ltac:(apply generatePlatformDescription_nonEmpty; key_in).
  - rewrite enrichFields_keywords by key_in.
    filled_by ltac:(apply generateKeywords_nonEmpty).
Qed.

Lemma filled_keys_never_empty_witness :
  lit "flipkart_description" ∈ filledKeys
  ∧ ∃ v, enrichFields [] ∅ !! lit "flipkart_description" = Some v ∧ v ≠ [].
Proof.
  assert (Hin : lit "flipkart_description" ∈ filledKeys) by key_in.
  split; [exact Hin|].
  exact (filled_keys_never_empty [] ∅ (lit "flipkart_description") Hin).
Defined.

(** * The extracted price *)

Section PriceShape.
Implicit Types (line s : jsstring).

Lemma groupTail_chars s : forallb priceChar (groupTail s) = true.
Proof.
  induction s as [|c s IH]; [done|]. cbn [groupTail].
  destruct (isDigit c) eqn:Hc.
  - cbn [forallb]. unfold priceChar at 1. by rewrite Hc, IH.
  - destruct (c =? 44) eqn:H44.
    + destruct s as [|d s]; [done|]. cbv beta match.
      destruct (isDigit d); [|done].
      cbn [forallb]. unfold priceChar at 1.
      by rewrite H44, IH, orb_true_r.
    + destruct (c =? 46) eqn:H46; [|done].
      destruct s as [|d1 [|d2 s]]; try done. cbv beta match.
      destruct (isDigit d1) eqn:H1, (isDigit d2) eqn:H2; try done.
      cbn [forallb andb]. unfold priceChar.
      by rewrite H46, H1, H2, !orb_true_r.
Qed.

Lemma removeFirst_chars (p : char → bool) c s :
  forallb p s = true → forallb p (removeFirst c s) = true.
Proof.
  induction s as [|d s IH]; [done|]. cbn [forallb removeFirst].
  intros [Hd Hs]%andb_true_iff. destruct (d =? c); [done|].
  cbn [forallb]. by rewrite Hd, IH.
Qed.

(** The price starts with the first digit of the line. *)
Lemma extractPrice_from_first_digit line :
  extractPrice line
  = match dropWhile (λ c, negb (isDigit c)) line with
    | d :: s1 => d :: removeFirst 44 (groupTail s1)
    | [] => []
    end.
Proof.
  unfold extractPrice. rewrite match1_pricePattern. unfold firstDigitGroup.
  destruct (dropWhile _ line) as [|d s1] eqn:E; [done|].
  apply dropWhile_head in E. apply negb_false_iff in E.
  cbn [removeFirst]. destruct (d =? 44) eqn:H; [|done].
  apply N.eqb_eq in H. subst d. discriminate E.
Qed.

Lemma extractPrice_digitFree line :
  digitFree line = true → extractPrice line = [].
Proof.
  intros Hfree. rewrite extractPrice_from_first_digit.
  apply dropWhile_nil_iff in Hfree. by rewrite Hfree.
Qed.

End PriceShape.

(** X15.  For a row without a price the price of the result is the one
    extracted from the raw line and nothing else: the price of the row is
    never used.  When the raw line has no digit the price is the empty
    string, and so is the marked price of a row that has none. *)
Theorem price_from_raw_line (rawInfo : jsstring) (row : CatalogRow) :
  falsy (row !! lit "price") = true →
  enrichFields rawInfo row !! lit "price" = Some (extractPrice rawInfo)
  ∧ (digitFree rawInfo = true → falsy (row !! lit "mrp") = true →
     enrichFields rawInfo row !! lit "price" = Some []
     ∧ enrichFields rawInfo row !! lit "mrp" = Some []).
Proof.
  intros Hrow.
  assert (Hprice : enrichFields rawInfo row !! lit "price"
                   = Some (extractPrice rawInfo)).
  { rewrite enrichFields_price, Hrow. f_equal. unfold or.
    destruct (extractPrice rawInfo) as [|c s]; cbn [falsy]; [|done].
    by rewrite Hrow. }
  split; [exact Hprice|]. intros Hfree Hmrp.
  rewrite enrichFields_mrp, Hmrp, Hprice, extractPrice_digitFree by done.
  split; [done|]. vm_compute. reflexivity.
Qed.

Lemma price_from_raw_line_witness :
  let rawInfo := lit "plain cotton shirt" in
  let row : CatalogRow := {[ lit "brand" := lit "Zara" ]} in
  falsy (row !! lit "price") = true
  ∧ digitFree rawInfo = true
  ∧ falsy (row !! lit "mrp") = true
  ∧ enrichFields rawInfo row !! lit "price" = Some []
  ∧ enrichFields rawInfo row !! lit "mrp" = Some [].
Proof.
  intros rawInfo row.
  split; [reflexivity|]. split; [vm_compute; reflexivity|].
  split; [reflexivity|].
  exact (proj2 (price_from_raw_line rawInfo row eq_refl) eq_refl eq_refl).
Defined.

(** X16.  The extracted price is made of digits, commas and points only;
    it is empty exactly when the line has no digit, and otherwise it
    starts with a digit, the first digit of the line. *)
Theorem extracted_price_shape (line : jsstring) :
  forallb priceChar (extractPrice line) = true
  ∧ (extractPrice line = [] ↔ digitFree line = true)
  ∧ (∀ c s, extractPrice line = c :: s →
     isDigit c = true
     ∧ ∃ pre post, line = pre ++ c :: post ∧ digitFree pre = true).
Proof.
  rewrite extractPrice_from_first_digit.
  destruct (split_at_first_digit line) as (pre & Hline & Hpre).
  destruct (dropWhile (λ c, negb (isDigit c)) line) as [|d s1] eqn:E.
  - split; [done|]. split; [|done].
    split; [intros _; by apply dropWhile_nil_iff|done].
  - apply dropWhile_head in E as Hd. apply negb_false_iff in Hd.
    split; [|split].
    + cbn [forallb]. unfold priceChar at 1. rewrite Hd. cbn [orb andb].
      apply removeFirst_chars, groupTail_chars.
    + split; [done|]. intros Hfree.
      apply dropWhile_nil_iff in Hfree. by rewrite Hfree in E.
    + intros c s [= <- _]. split; [done|]. by exists pre, s1.
Qed.

Lemma extracted_price_shape_witness :
  let line := lit "Cotton kurta, only Rs. 1,499.50 today" in
  extractPrice line = lit "1499.50"
  ∧ isDigit 49 = true
  ∧ ∃ pre post, line = pre ++ 49 :: post ∧ digitFree pre = true.
Proof.
  intros line.
  assert (Hprice : extractPrice line = 49 :: lit "499.50")
    by (vm_compute; reflexivity).
  split; [vm_compute; reflexivity|].
  exact (proj2 (proj2 (extracted_price_shape line)) 49 (lit "499.50") Hprice).
Defined.

(** * The page and the route *)

Section Commands.
Implicit Types (rows : list CatalogRow) (raw command word : jsstring)
  (st : Page.PageState).

Lemma toLowerCase_app (s t : jsstring) :
  toLowerCase (s ++ t) = toLowerCase s ++ toLowerCase t.
Proof. unfold toLowerCase. by rewrite map_app, concat_app. Qed.


(** The request that the page sends is accepted by the route. *)
Lemma enrichCatalog_with_route st :
  Page.catalogData st ≠ [] → Page.rawData st ≠ [] →
  Page.enrichCatalog (λ request, Some (POST request)) st
  = {| Page.catalogData :=
         imap (enrichRow (rawLinesOf (Page.rawData st)))
           (Page.catalogData st);
       Page.rawData := Page.rawData st;
       Page.status :=
         lit "Catalog enriched successfully! Ready to download.";
       Page.isProcessing := false;
       Page.messages :=
         Page.messages st
         ++ [{| Page.role := Page.assistant;
                Page.content :=
                  lit "Catalog enriched successfully! Ready to download."
             |}] |}.
Proof.
  destruct st as [rows raw status0 busy msgs].
  cbn [Page.catalogData Page.rawData Page.messages].
  intros Hrows Hraw. unfold Page.enrichCatalog.
  cbn [Page.catalogData Page.rawData Page.messages Page.isProcessing].
  rewrite (POST_accepts rows raw Hrows Hraw).
  by destruct rows, raw.
Qed.

End Commands.



(** X18.  A command with "hi" inside, in any case and in the middle of any
    word, is answered by the greeting whatever else it says and whatever
    the page holds: "enrich this" greets and does not announce the
    processing. *)
Theorem hi_inside_is_a_greeting (rows : list CatalogRow)
  (raw pre word post : jsstring) :
  toLowerCase word = lit "hi" →
  Page.processCommand rows raw (pre ++ word ++ post)
  = lit "Hello! I'm JARVIS, your personal AI agent. I can help you manage your e-commerce catalogs for Amazon, Flipkart, Meesho, and Myntra. Upload your catalog sheet and raw data, and I'll enrich it for you.".
Proof.
  intros Hword. unfold Page.processCommand. cbv zeta.
  assert (Hhi : includes (lit "hi") (toLowerCase (pre ++ word ++ post))
                = true).
  { apply includes_iff. exists (toLowerCase pre), (toLowerCase post).
    by rewrite !toLowerCase_app, Hword. }
  by rewrite Hhi, orb_true_r.
Qed.

Lemma hi_inside_is_a_greeting_witness :
  toLowerCase (lit "hi") = lit "hi"
  ∧ Page.processCommand [∅] (lit "Red Dress")
      (lit "enrich t" ++ lit "hi" ++ lit "s catalog")
    = lit "Hello! I'm JARVIS, your personal AI agent. I can help you manage your e-commerce catalogs for Amazon, Flipkart, Meesho, and Myntra. Upload your catalog sheet and raw data, and I'll enrich it for you.".
Proof.
  split; [reflexivity|].
  exact (hi_inside_is_a_greeting [∅] (lit "Red Dress") (lit "enrich t")
           (lit "hi") (lit "s catalog") eq_refl).
Defined.

(** X19.  The page never sends a request that the route rejects.  With the
    route as the other end, the enrichment of the page keeps the number of
    rows and the raw data, never ends with the status of a request in
    progress nor with the status of an error, and ends with the message
    of success exactly when the page has a catalog and raw data. *)
Theorem page_request_is_accepted (st : Page.PageState) :
  let st1 := Page.enrichCatalog (λ request, Some (POST request)) st in
  length (Page.catalogData st1) = length (Page.catalogData st)
  ∧ Page.rawData st1 = Page.rawData st
  ∧ Page.status st1 ≠ lit "Enriching catalog..."
  ∧ Page.status st1 ≠ lit "Error enriching catalog"
  ∧ (Page.status st1 = lit "Catalog enriched successfully! Ready to download."
     ↔ Page.catalogData st ≠ [] ∧ Page.rawData st ≠ []).
Proof.
  intros st1. subst st1.
  destruct (decide (Page.catalogData st = [])) as [Hrows|Hrows].
  - unfold Page.enrichCatalog. rewrite Hrows.
    cbn [length Nat.eqb Page.catalogData Page.rawData Page.status].
    split; [reflexivity|]. split; [reflexivity|].
    split; [key_neq|]. split; [key_neq|].
    split; [intros H; vm_compute in H; discriminate H|].
    intros [H _]. by destruct H.
  - destruct (decide (Page.rawData st = [])) as [Hraw|Hraw].
    + unfold Page.enrichCatalog. rewrite Hraw.
      destruct (Page.catalogData st) as [|row rows]; [by destruct Hrows|].
      cbn [length Nat.eqb nonEmpty negb Page.catalogData Page.rawData
           Page.status].
      split; [reflexivity|]. split; [reflexivity|].
      split; [key_neq|]. split; [key_neq|].
      split; [intros H; vm_compute in H; discriminate H|].
      intros [_ H]. by destruct H.
    + rewrite enrichCatalog_with_route by done.
      cbn [Page.catalogData Page.rawData Page.status].
      rewrite length_imap.
      split; [reflexivity|]. split; [reflexivity|].
      split; [key_neq|]. split; [key_neq|].
      split; [intros _; by split|reflexivity].
Qed.

Lemma page_request_is_accepted_witness :
  let st := {| Page.catalogData := [∅]; Page.rawData := lit "Red Dress";
               Page.status := []; Page.isProcessing := false;
               Page.messages := [] |} in
  let st1 := Page.enrichCatalog (λ request, Some (POST request)) st in
  Page.catalogData st ≠ [] ∧ Page.rawData st ≠ []
  ∧ Page.status st1 = lit "Catalog enriched successfully! Ready to download.".
Proof.
  intros st st1.
  assert (Hrows : Page.catalogData st ≠ []) by (vm_compute; discriminate).
  assert (Hraw : Page.rawData st ≠ []) by (vm_compute; discriminate).
  split; [exact Hrows|]. split; [exact Hraw|].
  exact (proj2 (proj2 (proj2 (proj2 (proj2 (page_request_is_accepted st)))))
           (conj Hrows Hraw)).
Defined.
